(** * NR-data-reader: block-structured AMR text files merged per variable

    A shallow embedding of [src/NR_data_reader.py] (class [NRDataReader]),
    and the laws of its specification proved or refuted on it.

    Conventions of the embedding:
    - a file is the sequence of lines that iterating the opened file yields
      (each line still carries its terminator), so the [filepath] arguments
      of the source appear here as [lines : list string]; characters are
      code points below 256;
    - Python [int] is [Z]; [//] and [%] are [Z.div] and [Z.modulo], which
      round the same way (towards minus infinity, remainder with the sign of
      the divisor);
    - exceptions are explicit: a computation returns [Ok v] or [Raise e];
      a method takes the reader object and returns it with its result;
    - what the reader takes from Python and pandas without defining it is an
      interface (a class with one operation): the float64 values with the
      order pandas sorts them by, the converter [float], and [read_csv].

    Part I holds the definitions, Part II the statements and proofs. *)

From Stdlib Require Import ZArith QArith Ascii String List Lia Bool Sorted.
From stdpp Require Import base option list strings gmap sorting.

Local Open Scope Z_scope.

(** * Part I: definitions *)

(** ** Exceptions and results *)

(** The first three are Python exceptions. [OutsideModel] is none: it is
    what the sample table reader of this development answers on a file it
    does not model, where nothing is said about what pandas does. *)
Inductive exn : Type :=
| IndexError
| ValueError
| ParserError
| OutsideModel.

Inductive result (A : Type) : Type :=
| Ok (a : A)
| Raise (e : exn).
Arguments Ok {A} a.
Arguments Raise {A} e.

Global Instance result_ret : MRet result := fun A a => Ok a.

Global Instance result_bind : MBind result := fun A B k m =>
  match m with
  | Ok a => k a
  | Raise e => Raise e
  end.

Definition of_option {A : Type} (e : exn) (o : option A) : result A :=
  match o with
  | Some a => Ok a
  | None => Raise e
  end.

(** ** Interfaces to Python and pandas *)

(** Python's [float(s)]; [None] stands for its [ValueError]. *)
Class PyFloat (float64 : Type) := py_float : string → option float64.

(** The order pandas sorts a float64 column by (ascending, NaN last). Two
    values fall into the same group of [drop_duplicates] exactly when
    neither sorts before the other. *)
Class Float64Order (float64 : Type) := fle : float64 → float64 → bool.

(** [pd.read_csv(filepath, comment=QUOTE, sep=r'\s+', names=[...])]: the
    two columns read from the file, or the exception pandas raises. *)
Class ReadCsv (float64 : Type) :=
  read_csv : list string → result (list (float64 * float64)).

(** The number syntax of the [read_csv] parser; [None] for a field that is
    not a number. *)
Class CsvNumber (float64 : Type) := csv_number : string → option float64.

(** ** The Python string operations the reader uses *)

Module PyStr.

(** [sub in s] *)
Fixpoint contains (sub s : string) : bool :=
  String.prefix sub s ||
  match s with
  | EmptyString => false
  | String _ s' => contains sub s'
  end.

(** [s.split(sep)] for a one-character separator: never empty. *)
Fixpoint split (sep : ascii) (s : string) : list string :=
  match s with
  | EmptyString => [EmptyString]
  | String c s' =>
      if Ascii.eqb c sep then EmptyString :: split sep s'
      else match split sep s' with
           | piece :: pieces => String c piece :: pieces
           | [] => [String c EmptyString]
           end
  end.

(** [str.isspace] on the code points below 256. *)
Definition isspace (c : ascii) : bool :=
  let n := nat_of_ascii c in
  ((9 <=? n) && (n <=? 13) || (28 <=? n) && (n <=? 32) ||
   (n =? 133) || (n =? 160))%nat.

Fixpoint lstrip_where (drop : ascii → bool) (s : string) : string :=
  match s with
  | EmptyString => EmptyString
  | String c s' => if drop c then lstrip_where drop s' else s
  end.

Fixpoint rstrip_where (drop : ascii → bool) (s : string) : string :=
  match s with
  | EmptyString => EmptyString
  | String c s' =>
      match rstrip_where drop s' with
      | EmptyString => if drop c then EmptyString else String c EmptyString
      | kept => String c kept
      end
  end.

Definition strip_where (drop : ascii → bool) (s : string) : string :=
  rstrip_where drop (lstrip_where drop s).

(** [s.strip()] *)
Definition strip : string → string := strip_where isspace.

(** [s.strip(chars)] *)
Definition strip_chars (chars : string) : string → string :=
  strip_where (fun c => existsb (Ascii.eqb c) (list_ascii_of_string chars)).

(** No character of [s] is [c]. *)
Fixpoint free_of (c : ascii) (s : string) : bool :=
  match s with
  | EmptyString => true
  | String c' s' => negb (Ascii.eqb c' c) && free_of c s'
  end.

End PyStr.

Definition dquote : ascii := "034"%char.

(** ** Block-size detection: [_get_lines_per_block] *)

(** The [for i, line in enumerate(f)] loop with its [break]. *)
Fixpoint scan_headers (i : nat) (lines : list string)
    (time_header_indices : list Z) : list Z :=
  match lines with
  | [] => time_header_indices
  | line :: rest =>
      if PyStr.contains "Time" line then
        let found := time_header_indices ++ [Z.of_nat i] in
        if (length found =? 2)%nat then found
        else scan_headers (S i) rest found
      else scan_headers (S i) rest time_header_indices
  end.

Definition _get_lines_per_block (lines : list string) : Z :=
  let time_header_indices := scan_headers 0 lines [] in
  if (length time_header_indices <? 2)%nat then 0
  else nth 1 time_header_indices 0 - nth 0 time_header_indices 0.

(** The specification's reading: the indices, in file order, of all lines
    containing the marker, and the difference of the first two. *)
Fixpoint header_indices_from (i : nat) (lines : list string) : list Z :=
  match lines with
  | [] => []
  | line :: rest =>
      if PyStr.contains "Time" line
      then Z.of_nat i :: header_indices_from (S i) rest
      else header_indices_from (S i) rest
  end.

Definition header_indices : list string → list Z := header_indices_from 0.

Definition first_two_difference (indices : list Z) : Z :=
  match indices with
  | first :: second :: _ => second - first
  | _ => 0
  end.

(** ** Time extraction: [_parse_times_from_file] *)

#[local] Instance Z_divide_dec : RelDecision Z.divide.
Proof.
  intros a b.
  destruct ((b =? 0) || negb (a =? 0) && (b `mod` a =? 0)) eqn:Hdec;
    [left | right];
    pose proof (Z.BoolSpec_divide a b) as Hspec;
    rewrite Hdec in Hspec; by inversion Hspec.
Defined.

Section TimeExtraction.

Context {float64 : Type} `{!PyFloat float64}.

(** The body of the [try]: the second piece of [line.split('=')], after
    [.strip()] and then [.strip] of the double-quote character, goes
    through [float]. *)
Definition parse_time (line : string) : result float64 :=
  piece ← of_option IndexError (PyStr.split "=" line !! 1%nat);
  let time_str := PyStr.strip_chars (String dquote EmptyString) (PyStr.strip piece) in
  of_option ValueError (py_float time_str).

(** [except (IndexError, ValueError)] *)
Definition caught (e : exn) : bool :=
  match e with
  | IndexError | ValueError => true
  | ParserError | OutsideModel => false
  end.

Fixpoint parse_times_loop (block_size : Z) (i : nat) (lines : list string)
    (times : list float64) : result (list float64) :=
  match lines with
  | [] => Ok times
  | line :: rest =>
      if Z.of_nat i `mod` block_size =? 0 then
        match parse_time line with
        | Ok t => parse_times_loop block_size (S i) rest (times ++ [t])
        | Raise e =>
            if caught e then parse_times_loop block_size (S i) rest times
            else Raise e
        end
      else parse_times_loop block_size (S i) rest times
  end.

Definition _parse_times_from_file (lines : list string) (block_size : Z)
    : result (list float64) :=
  if block_size =? 0 then Ok []
  else parse_times_loop block_size 0 lines [].

(** What the specification says of one header: the portion after the
    first [=] (up to the next one), stripped of whitespace and then of
    quote characters, converted to a float; nothing when any step fails. *)
Definition header_time (line : string) : option float64 :=
  match PyStr.split "=" line with
  | _ :: portion :: _ =>
      py_float (PyStr.strip_chars (String dquote EmptyString) (PyStr.strip portion))
  | _ => None
  end.

(** The lines whose index (counted from [i]) is a multiple of [block_size]. *)
Fixpoint lines_at_multiples_from (block_size : Z) (i : nat)
    (lines : list string) : list string :=
  match lines with
  | [] => []
  | line :: rest =>
      if decide ((block_size | Z.of_nat i))
      then line :: lines_at_multiples_from block_size (S i) rest
      else lines_at_multiples_from block_size (S i) rest
  end.

Definition lines_at_multiples (block_size : Z) : list string → list string :=
  lines_at_multiples_from block_size 0.

End TimeExtraction.

(** ** Frames, level records and the merge: [_process_variable] *)

(** [seq[:stop]] *)
Definition slice_to {A : Type} (stop : Z) (l : list A) : list A :=
  if stop <? 0 then take (length l - Z.to_nat (- stop)) l
  else take (Z.to_nat stop) l.

(** [np.repeat(a, repeats)] for a non-negative scalar [repeats]. *)
Definition np_repeat {A : Type} (a : list A) (repeats : Z) : list A :=
  a ≫= replicate (Z.to_nat repeats).

Section Frames.

Context {float64 : Type}.
Context `{!Float64Order float64} `{!ReadCsv float64} `{!PyFloat float64}.

Definition flt (a b : float64) : bool := negb (fle b a).
Definition feq (a b : float64) : bool := fle a b && fle b a.

(** A row of [master_df]. *)
Record Row : Type := mkRow {
  x_coordinate : float64;
  value : float64;
  time : float64;
  level : nat
}.

(** The result of [_process_variable]: index (time, x_coordinate) and the
    one remaining column; [pd.DataFrame()] is the empty list. *)
Definition Dataset : Type := list (float64 * float64 * float64).

Definition same_key (r s : Row) : bool :=
  feq (time r) (time s) && feq (x_coordinate r) (x_coordinate s).

(** Ascending order on [['time', 'x_coordinate', 'level']]. *)
Definition row_le (r s : Row) : bool :=
  if flt (time r) (time s) then true
  else if flt (time s) (time r) then false
  else if flt (x_coordinate r) (x_coordinate s) then true
  else if flt (x_coordinate s) (x_coordinate r) then false
  else (level r <=? level s)%nat.

(** [sort_values(by=[...])] on several columns is a stable sort. *)
Fixpoint insert_row (r : Row) (sorted : list Row) : list Row :=
  match sorted with
  | [] => [r]
  | s :: rest => if row_le r s then r :: s :: rest else s :: insert_row r rest
  end.

Fixpoint sort_values (df : list Row) : list Row :=
  match df with
  | [] => []
  | r :: rest => insert_row r (sort_values rest)
  end.

(** [drop_duplicates(subset=['time', 'x_coordinate'], keep='last')] *)
Fixpoint drop_duplicates_last (df : list Row) : list Row :=
  match df with
  | [] => []
  | r :: rest =>
      if existsb (same_key r) rest then drop_duplicates_last rest
      else r :: drop_duplicates_last rest
  end.

(** [rename], [set_index(['time', 'x_coordinate'])], [drop(columns='level')] *)
Definition to_entry (r : Row) : float64 * float64 * float64 :=
  (time r, x_coordinate r, value r).

(** Lines 99-105: everything after the loop over the level files. *)
Definition merge_levels (all_levels_dfs : list (list Row)) : Dataset :=
  match all_levels_dfs with
  | [] => []
  | _ =>
      let master_df := concat all_levels_dfs in
      let final_df := drop_duplicates_last (sort_values master_df) in
      to_entry <$> final_df
  end.

(** The reader object: the attributes the core pipeline reads and writes. *)
Record NRDataReader : Type := mkReader {
  times : list float64;
  data : gmap string Dataset
}.

(** Body of the loop over [enumerate(file_paths)], lines 80-96: [None] is
    [continue], [Some df] is [all_levels_dfs.append(df)]. Assigning a
    column whose length differs from the frame's raises [ValueError]. *)
Definition level_frame (self : NRDataReader) (i : nat) (filepath : list string)
    (block_size : Z) : result (option (list Row)) :=
  let rows_per_data_block := block_size - 2 in
  if rows_per_data_block <=? 0 then Ok None
  else
    df_level ← read_csv filepath;
    let num_timesteps := Z.of_nat (length df_level) / rows_per_data_block in
    if num_timesteps =? 0 then Ok None
    else
      let num_rows_to_keep := num_timesteps * rows_per_data_block in
      let df_complete := slice_to num_rows_to_keep df_level in
      let time_column :=
        np_repeat (slice_to num_timesteps (times self)) rows_per_data_block in
      if (length time_column =? length df_complete)%nat then
        Ok (Some (zip_with (λ xv t, mkRow xv.1 xv.2 t i) df_complete time_column))
      else Raise ValueError.

Fixpoint process_levels (self : NRDataReader) (i : nat)
    (file_paths : list (list string)) (lines_per_block : list Z)
    (all_levels_dfs : list (list Row)) : result (list (list Row)) :=
  match file_paths with
  | [] => Ok all_levels_dfs
  | filepath :: rest =>
      block_size ← of_option IndexError (lines_per_block !! i);
      frame ← level_frame self i filepath block_size;
      process_levels self (S i) rest lines_per_block
        (match frame with
         | Some df_complete => all_levels_dfs ++ [df_complete]
         | None => all_levels_dfs
         end)
  end.

Definition _process_variable (self : NRDataReader) (variable_name : string)
    (file_paths : list (list string)) (lines_per_block : list Z)
    : result Dataset * NRDataReader :=
  (all_levels_dfs ← process_levels self 0 file_paths lines_per_block [];
   Ok (merge_levels all_levels_dfs),
   self).

(** [self.data.get(variable_name, pd.DataFrame())] *)
Definition get_variable (self : NRDataReader) (variable_name : string)
    : Dataset * NRDataReader :=
  (default [] (data self !! variable_name), self).

Definition get_times (self : NRDataReader) : list float64 * NRDataReader :=
  (times self, self).

(** The loop of [load] over the variables, lines 65-69:
    [self.data[var] = self._process_variable(...)]. *)
Fixpoint load_variables (self : NRDataReader)
    (variable_paths : list (string * list (list string)))
    : result () * NRDataReader :=
  match variable_paths with
  | [] => (Ok (), self)
  | (var, file_paths) :: rest =>
      let var_lines_per_block := _get_lines_per_block <$> file_paths in
      match _process_variable self var file_paths var_lines_per_block with
      | (Ok df, after) =>
          load_variables (mkReader (times after) (<[var := df]> (data after))) rest
      | (Raise e, after) => (Raise e, after)
      end
  end.

(** [load], given what [_discover_and_group_files] found: the variables in
    sorted order, each with its files in sorted path order. The first file
    of the first variable gives the reference times. *)
Definition load (self : NRDataReader)
    (variable_paths : list (string * list (list string)))
    : result () * NRDataReader :=
  match variable_paths with
  | [] => (Ok (), self)
  | (ref_var, ref_paths) :: _ =>
      let ref_lines_per_block := _get_lines_per_block <$> ref_paths in
      match ref_paths, ref_lines_per_block with
      | first_path :: _, first_size :: _ =>
          match _parse_times_from_file first_path first_size with
          | Ok reference => load_variables (mkReader reference (data self)) variable_paths
          | Raise e => (Raise e, self)
          end
      | _, _ => (Raise IndexError, self)
      end
  end.

(** *** Notions used to state the laws *)

(** [df.loc[(t, x)]]: the value stored under an index key. *)
Fixpoint loc (df : Dataset) (t x : float64) : option float64 :=
  match df with
  | [] => None
  | (t', x', v) :: rest =>
      if feq t' t && feq x' x then Some v else loc rest t x
  end.

Definition entry_same_key (e1 e2 : float64 * float64 * float64) : bool :=
  feq e1.1.1 e2.1.1 && feq e1.1.2 e2.1.2.

Definition unique_keys (df : Dataset) : Prop :=
  ∀ (i j : nat) e1 e2,
    df !! i = Some e1 → df !! j = Some e2 →
    entry_same_key e1 e2 = true → i = j.

Definition row_sorted : list Row → Prop :=
  StronglySorted (λ r s, row_le r s = true).

Definition has_key (t x : float64) (r : Row) : bool :=
  feq (time r) t && feq (x_coordinate r) x.

(** The last row of [df] at the key. *)
Fixpoint last_at (t x : float64) (df : list Row) : option Row :=
  match df with
  | [] => None
  | r :: rest =>
      match last_at t x rest with
      | Some later => Some later
      | None => if has_key t x r then Some r else None
      end
  end.

(** A later candidate [later] gives way to [r] only when [r] is at the key
    and of strictly higher level. *)
Definition prefer (t x : float64) (r : Row) (later : option Row) : option Row :=
  match later with
  | Some c => if has_key t x r && (level c <? level r)%nat then Some r else Some c
  | None => if has_key t x r then Some r else None
  end.

(** The row of highest level at the key; the last one among several. *)
Fixpoint best_at (t x : float64) (df : list Row) : option Row :=
  match df with
  | [] => None
  | r :: rest => prefer t x r (best_at t x rest)
  end.

(** A dataset read back as the rows of one level. *)
Definition as_level (lvl : nat) (df : Dataset) : list Row :=
  (λ e, mkRow e.1.2 e.2 e.1.1 lvl) <$> df.

Definition set_level (lvl : nat) (r : Row) : Row :=
  mkRow (x_coordinate r) (value r) (time r) lvl.

(** The rows a level contributes to the merge. *)
Definition emitted (frame : option (list Row)) : list Row := default [] frame.

End Frames.

Arguments Row : clear implicits.
Arguments Dataset : clear implicits.
Arguments NRDataReader : clear implicits.

(** ** The table format [read_csv] is called on (line 84)

    [pd.read_csv(filepath, comment=QUOTE, sep=r'\s+', names=[two names])] is
    pandas code, not code of this repository: in the laws it is the
    parameter [read_csv], and a law that depends on what it returns takes
    that as a hypothesis. Its documented behaviour for these arguments on
    the files the reader is written for is: a line that begins with the
    comment character is ignored altogether; a blank line is skipped
    ([skip_blank_lines] is on by default); any other line is split on runs
    of whitespace, and two numeric fields make one row.

    What follows is a sample reader, used to run the program on sample
    files, and the format stated on the text of a line. The sample reader
    covers files of that format only. On lines of any other shape (one
    field, three or more, a field that is not a number or holds a quote
    character) pandas has answers of its own (an index column, padding
    with NaN, columns of strings, an exception) that are not modelled:
    [read_csv_table] answers [None] for a file that has such a line. *)

Section ReadCsvModel.

Context {float64 : Type} `{!CsvNumber float64}.

(** Space, tab and the line terminators. *)
Definition csv_space (c : ascii) : bool :=
  let n := nat_of_ascii c in
  ((n =? 32) || (n =? 9) || (n =? 10) || (n =? 13))%nat.

Fixpoint every (p : ascii → bool) (s : string) : bool :=
  match s with
  | EmptyString => true
  | String c s' => p c && every p s'
  end.

(** The fields of a line: its maximal runs of characters that are not
    whitespace. *)
Fixpoint csv_fields (s : string) : list string :=
  match s with
  | EmptyString => []
  | String c s' =>
      if csv_space c then csv_fields s'
      else
        match s' with
        | EmptyString => [String c EmptyString]
        | String c' _ =>
            if csv_space c' then String c EmptyString :: csv_fields s'
            else match csv_fields s' with
                 | field :: fields => String c field :: fields
                 | [] => [String c EmptyString]
                 end
        end
  end.

Definition quote_free (s : string) : bool :=
  every (λ c, negb (Ascii.eqb c dquote)) s.

(** One line: [Some None] when it is skipped, [Some (Some row)] when it
    makes a row, [None] when it is outside the model. *)
Definition read_csv_line (line : string) : option (option (float64 * float64)) :=
  match line with
  | EmptyString => Some None
  | String c _ =>
      if Ascii.eqb c dquote then Some None
      else
        match csv_fields line with
        | [] => Some None
        | [first; second] =>
            if quote_free first && quote_free second then
              x ← csv_number first;
              v ← csv_number second;
              Some (Some (x, v))
            else None
        | _ => None
        end
  end.

Fixpoint read_csv_table (lines : list string) : option (list (float64 * float64)) :=
  match lines with
  | [] => Some []
  | line :: rest =>
      outcome ← read_csv_line line;
      rows ← read_csv_table rest;
      Some (match outcome with
            | Some row => row :: rows
            | None => rows
            end)
  end.

(** The instance of [read_csv] used to run [level_frame] on sample files.
    On a file outside the format it answers [OutsideModel], which is not
    an answer of pandas; every sample file below is of the format. *)
Definition read_csv_plain (lines : list string) : result (list (float64 * float64)) :=
  of_option OutsideModel (read_csv_table lines).

(** *** The format, stated on the text of a line *)

Definition is_comment_line (line : string) : bool :=
  match line with
  | String c _ => Ascii.eqb c dquote
  | EmptyString => false
  end.

Definition is_blank_line (line : string) : bool := every csv_space line.

Definition is_field (s : string) : Prop :=
  s ≠ EmptyString ∧
  every (λ c, negb (csv_space c) && negb (Ascii.eqb c dquote)) s = true.

(** [table_line line outcome]: a comment, a blank line, or two numeric
    fields between optional whitespace. *)
Inductive table_line : string → option (float64 * float64) → Prop :=
| comment_line (rest : string) :
    table_line (String dquote rest) None
| blank_line (line : string) :
    is_blank_line line = true → table_line line None
| pair_line (lead first gap second trail : string) (x v : float64) :
    every csv_space lead = true →
    is_field first →
    gap ≠ EmptyString → every csv_space gap = true →
    is_field second →
    every csv_space trail = true →
    csv_number first = Some x →
    csv_number second = Some v →
    table_line (lead +:+ first +:+ gap +:+ second +:+ trail) (Some (x, v)).

(** A line that splits on whitespace into exactly two numeric fields, the
    numbers [xv]. *)
Definition two_numeric_fields (line : string) (xv : float64 * float64) : Prop :=
  ∃ first second,
    csv_fields line = [first; second] ∧
    csv_number first = Some xv.1 ∧ csv_number second = Some xv.2.

End ReadCsvModel.

(** The (position, value) pair a record was built from. *)
Definition record_pair {float64 : Type} (r : Row float64) : float64 * float64 :=
  (x_coordinate r, value r).

(** ** Further notions used to state laws *)

Definition is_dquote (c : ascii) : bool := Ascii.eqb c dquote.

(** The first, and the last, character of [s] exists and is not one that
    [drop] strips. *)
Definition first_kept (drop : ascii → bool) (s : string) : bool :=
  match s with
  | String c _ => negb (drop c)
  | EmptyString => false
  end.

Fixpoint last_kept (drop : ascii → bool) (s : string) : bool :=
  match s with
  | EmptyString => false
  | String c EmptyString => negb (drop c)
  | String _ s' => last_kept drop s'
  end.

Section MoreNotions.

Context {float64 : Type} `{!Float64Order float64}.

(** Strictly ascending index keys: by time, then by position. *)
Definition entry_lt (e1 e2 : float64 * float64 * float64) : bool :=
  flt e1.1.1 e2.1.1 || feq e1.1.1 e2.1.1 && flt e1.1.2 e2.1.2.

(** No two rows of [df] have the same (time, position) key. *)
Fixpoint distinct_keys (df : list (Row float64)) : bool :=
  match df with
  | [] => true
  | r :: rest => negb (existsb (same_key r) rest) && distinct_keys rest
  end.

End MoreNotions.

(** ** Discovery: [_discover_and_group_files]

    [glob.glob] and the directory are outside the program: the list of
    paths it returned, in whatever order, is an argument here. Paths are
    POSIX paths. The registry is the part of the reader object that
    discovery writes. *)

Global Instance exn_eq_dec : EqDecision exn.
Proof. solve_decision. Defined.

Global Instance result_eq_dec {A : Type} `{EqDecision A} : EqDecision (result A).
Proof. solve_decision. Defined.

(** [s.split(sep)] for a separator of one or more characters (Python
    raises on an empty one; the only separator used below is [.x]): the
    head of the result is the piece that starts here, and [skip] characters
    of a separator just found are still to be passed over. *)
Fixpoint split_str_from (sep : string) (skip : nat) (s : string) : list string :=
  match s with
  | EmptyString => [EmptyString]
  | String c s' =>
      match skip with
      | S skip' => split_str_from sep skip' s'
      | O =>
          if String.prefix sep s
          then EmptyString :: split_str_from sep (String.length sep - 1) s'
          else match split_str_from sep 0 s' with
               | piece :: pieces => String c piece :: pieces
               | [] => [String c EmptyString]
               end
      end
  end.

Definition split_str (sep s : string) : list string := split_str_from sep 0 s.

(** [os.path.basename(p)]: what follows the last slash. *)
Fixpoint basename (p : string) : string :=
  match p with
  | EmptyString => EmptyString
  | String c p' =>
      if PyStr.free_of "/" p' then (if Ascii.eqb c "/" then p' else p)
      else basename p'
  end.

Record Registry : Type := mkRegistry {
  variables : list string;
  variable_paths : gmap string (list string)
}.

(** [os.path.basename(fpath).split('.x')[0]] *)
Definition variable_stem (fpath : string) : result string :=
  of_option IndexError (split_str ".x" (basename fpath) !! 0%nat).

(** The first loop: [self.variable_paths[variable_stem].append(fpath)] on a
    [defaultdict(list)]. *)
Fixpoint group_files (grouped : gmap string (list string))
    (all_x_files : list string) : result () * gmap string (list string) :=
  match all_x_files with
  | [] => (Ok (), grouped)
  | fpath :: rest =>
      match variable_stem fpath with
      | Ok stem =>
          group_files (<[stem := default [] (grouped !! stem) ++ [fpath]]> grouped) rest
      | Raise e => (Raise e, grouped)
      end
  end.

(** Then every list is sorted in place, and the sorted names are kept. *)
Definition _discover_and_group_files (self : Registry) (all_x_files : list string)
    : result () * Registry :=
  match group_files (variable_paths self) all_x_files with
  | (Ok _, grouped) =>
      let sorted_paths := merge_sort String.le <$> grouped in
      (Ok (),
       mkRegistry (merge_sort String.le (elements (dom sorted_paths))) sorted_paths)
  | (Raise e, grouped) => (Raise e, mkRegistry (variables self) grouped)
  end.

(** [_find_file_paths]: [sorted(glob.glob(pattern))], given the matches. *)
Definition _find_file_paths (matches : list string) : list string :=
  merge_sort String.le matches.

(** ** A concrete instance: rationals and plain decimal literals

    Used to run the reader on sample files. Distinct fractions may denote the
    same number (as [0.0] and [-0.0] do for floats): they are then one key
    for the merge. *)

Module Decimal.

Fixpoint scan (s : string) (mantissa : Z) (scale : option positive)
    (seen_digit : bool) : option Q :=
  match s with
  | EmptyString =>
      if seen_digit then Some (Qmake mantissa (default 1%positive scale)) else None
  | String c s' =>
      if Ascii.eqb c "."%char then
        match scale with
        | None => scan s' mantissa (Some 1%positive) seen_digit
        | Some _ => None
        end
      else
        match Ascii.is_nat c with
        | Some d =>
            scan s' (10 * mantissa + Z.of_nat d) (Pos.mul 10 <$> scale) true
        | None => None
        end
  end.

(** [digits], [digits.digits], with an optional leading minus sign. *)
Definition number (s : string) : option Q :=
  match s with
  | String "-"%char s' => Qopp <$> scan s' 0 None false
  | _ => scan s 0 None false
  end.

Global Instance decimal_float : PyFloat Q := number.
Global Instance decimal_order : Float64Order Q := Qle_bool.
Global Instance decimal_csv_number : CsvNumber Q := number.
Global Instance decimal_read_csv : ReadCsv Q := read_csv_plain.

(** A line with its terminator, and a header line [QUOTE Time = t]. *)
Definition eol (s : string) : string := s +:+ String "010"%char EmptyString.
Definition header (t : string) : string := eol (String dquote ("Time = " +:+ t)).

(** Two blocks of five lines: header, three rows, the blank separator. *)
Definition two_blocks : list string :=
  [ header "0.0"; eol "0.0 1.0"; eol "1.0 2.0"; eol "2.0 3.0"; eol "";
    header "1.0"; eol "0.0 1.0"; eol "1.0 2.0"; eol "2.0 3.0"; eol "" ].

(** The same file cut inside its third block. *)
Definition truncated_file : list string :=
  two_blocks ++ [header "2.0"; eol "0.0 1.0"].

(** Blocks of three lines (one row each): two at level 0, three at level 1. *)
Definition coarse : list string :=
  [ header "0.0"; eol "1.0 5.0"; eol "";
    header "1.0"; eol "1.0 6.0"; eol "" ].

Definition fine : list string :=
  [ header "0.0"; eol "1.0 9.0"; eol "";
    header "0.5"; eol "1.0 9.5"; eol "";
    header "1.0"; eol "1.0 8.0"; eol "" ].

Definition reader (times : list Q) : NRDataReader Q :=
  {| times := times; data := ∅ |}.

(** Three levels at one key, with values 5.0, 9.0 and 7.0. *)
Definition three_levels : list (list (Row Q)) :=
  [ [mkRow (Qmake 10 10) (Qmake 50 10) (Qmake 0 10) 0];
    [mkRow (Qmake 10 10) (Qmake 90 10) (Qmake 0 10) 1];
    [mkRow (Qmake 10 10) (Qmake 70 10) (Qmake 0 10) 2] ].

End Decimal.

(** * Part II: the laws *)

(** ** Python strings *)

Lemma split_free (sep : ascii) (s : string) :
  PyStr.free_of sep s = true → PyStr.split sep s = [s].
Proof.
  induction s as [|c s IH]; simpl; [done|].
  intros [Hc Hs]%andb_prop. apply negb_true_iff in Hc.
  by rewrite Hc, IH.
Qed.

Lemma split_first (sep : ascii) (before after : string) :
  PyStr.free_of sep before = true →
  PyStr.split sep (before +:+ String sep after) = before :: PyStr.split sep after.
Proof.
  induction before as [|c before IH]; simpl.
  - intros _. change (EmptyString +:+ String sep after) with (String sep after).
    simpl. by rewrite Ascii.eqb_refl.
  - intros [Hc Hs]%andb_prop. apply negb_true_iff in Hc.
    change (String c before +:+ String sep after)
      with (String c (before +:+ String sep after)).
    simpl. by rewrite Hc, IH.
Qed.

Lemma prefix_spec (sub s : string) :
  String.prefix sub s = true ↔ ∃ after, s = sub +:+ after.
Proof.
  revert s. induction sub as [|a sub IH]; intros s.
  - split; [intros _; exists s; reflexivity | by destruct s].
  - destruct s as [|b s]; cbn [String.prefix].
    + split; [discriminate | intros [after Hs]; discriminate Hs].
    + destruct (ascii_dec a b) as [->|Hab].
      * rewrite IH. split.
        -- intros [after ->]. exists after. reflexivity.
        -- intros [after Hs]. exists after.
           change (String b sub +:+ after) with (String b (sub +:+ after)) in Hs.
           congruence.
      * split; [discriminate|]. intros [after Hs].
        change (String a sub +:+ after) with (String a (sub +:+ after)) in Hs.
        congruence.
Qed.

(** [sub in s] holds exactly when [sub] occurs somewhere in [s]. *)
Lemma contains_spec (sub s : string) :
  PyStr.contains sub s = true ↔ ∃ before after, s = before +:+ sub +:+ after.
Proof.
  induction s as [|c s IH]; cbn [PyStr.contains].
  - rewrite orb_false_r, prefix_spec. split.
    + intros [after ->]. exists EmptyString, after. reflexivity.
    + intros (before & after & Hs). destruct before as [|b before].
      * exists after. exact Hs.
      * discriminate Hs.
  - rewrite orb_true_iff, IH, prefix_spec. split.
    + intros [[after ->]|(before & after & ->)].
      * exists EmptyString, after. reflexivity.
      * exists (String c before), after. reflexivity.
    + intros (before & after & Hs). destruct before as [|b before].
      * left. exists after. exact Hs.
      * right. exists before, after.
        change (String b before +:+ sub +:+ after)
          with (String b (before +:+ sub +:+ after)) in Hs.
        congruence.
Qed.

Example split_assignments :
  PyStr.split "=" "a=b=c" = ["a"; "b"; "c"] ∧
  PyStr.split "=" "" = [""] ∧
  PyStr.split "=" "a=" = ["a"; ""].
Proof. repeat split; reflexivity. Qed.

Example strip_then_unquote :
  PyStr.strip_chars (String dquote "")
    (PyStr.strip ("  " +:+ String dquote ("0.25" +:+ String dquote "  "))) = "0.25".
Proof. reflexivity. Qed.

Example time_in_line :
  PyStr.contains "Time" (String dquote "Time = 0.0") = true ∧
  PyStr.contains "Time" "0.0 1.0" = false.
Proof. split; reflexivity. Qed.

(** ** Block-size detection *)

Lemma header_indices_from_lower_bound (i : nat) (lines : list string) :
  Forall (λ k, Z.of_nat i ≤ k) (header_indices_from i lines).
Proof.
  revert i. induction lines as [|line rest IH]; intros i; simpl; [done|].
  assert (Forall (λ k, Z.of_nat i ≤ k) (header_indices_from (S i) rest)) as Hrest.
  { eapply Forall_impl; [apply IH|]. intros k Hk. simpl in Hk. lia. }
  destruct (PyStr.contains "Time" line); [|done].
  constructor; [lia | done].
Qed.

(** The header indices come in increasing order, so the first two of the
    list are the first two header lines of the file. *)
Lemma header_indices_from_increasing (i : nat) (lines : list string) :
  StronglySorted Z.lt (header_indices_from i lines).
Proof.
  revert i. induction lines as [|line rest IH]; intros i; simpl; [constructor|].
  destruct (PyStr.contains "Time" line); [|apply IH].
  constructor; [apply IH|].
  eapply Forall_impl; [apply (header_indices_from_lower_bound (S i))|].
  intros k Hk. simpl in Hk. lia.
Qed.

Lemma elem_of_header_indices_from (k : Z) (i : nat) (lines : list string) :
  k ∈ header_indices_from i lines ↔
  ∃ (j : nat) (line : string),
    lines !! j = Some line ∧ PyStr.contains "Time" line = true ∧
    k = Z.of_nat (i + j).
Proof.
  revert i. induction lines as [|line rest IH]; intros i; simpl.
  - split; [by intros ?%elem_of_nil | by intros (j & l & ? & _)].
  - destruct (PyStr.contains "Time" line) eqn:Hline.
    + rewrite elem_of_cons, IH. split.
      * intros [-> | (j & l & Hj & Hl & ->)].
        -- exists 0%nat, line. repeat split; [done | f_equal; lia].
        -- exists (S j), l. repeat split; [done.. | f_equal; lia].
      * intros ([|j] & l & Hj & Hl & ->); simplify_eq/=.
        -- left. f_equal; lia.
        -- right. exists j, l. repeat split; [done.. | f_equal; lia].
    + rewrite IH. split.
      * intros (j & l & Hj & Hl & ->).
        exists (S j), l. repeat split; [done.. | f_equal; lia].
      * intros ([|j] & l & Hj & Hl & ->); simpl in Hj.
        -- congruence.
        -- exists j, l. repeat split; [done.. | f_equal; lia].
Qed.

Lemma scan_headers_one (i : nat) (lines : list string) (first : Z) :
  scan_headers i lines [first] =
  match header_indices_from i lines with
  | [] => [first]
  | second :: _ => [first; second]
  end.
Proof.
  revert i. induction lines as [|line rest IH]; intros i; simpl; [done|].
  destruct (PyStr.contains "Time" line); [done | apply IH].
Qed.

Lemma scan_headers_spec (i : nat) (lines : list string) :
  scan_headers i lines [] = take 2 (header_indices_from i lines).
Proof.
  revert i. induction lines as [|line rest IH]; intros i; simpl; [done|].
  destruct (PyStr.contains "Time" line); [|apply IH].
  simpl. rewrite scan_headers_one.
  by destruct (header_indices_from (S i) rest).
Qed.

(** C4. The detector returns the difference between the indices of the first
    two lines that contain the header marker; with fewer than two such lines
    in the whole file it returns 0. *)
Theorem get_lines_per_block_spec (lines : list string) :
  _get_lines_per_block lines = first_two_difference (header_indices lines).
Proof.
  unfold _get_lines_per_block, header_indices.
  rewrite scan_headers_spec.
  by destruct (header_indices_from 0 lines) as [|first [|second more]].
Qed.

(** *** What the detector returns, and how far it reads *)

Lemma length_header_indices_from (i : nat) (lines : list string) :
  length (header_indices_from i lines) =
  length (filter (λ line, PyStr.contains "Time" line = true) lines).
Proof.
  revert i. induction lines as [|line rest IH]; intros i; simpl; [done|].
  rewrite filter_cons.
  destruct (PyStr.contains "Time" line) eqn:Hline.
  - rewrite decide_True by done. simpl. by rewrite IH.
  - rewrite decide_False by done. apply IH.
Qed.

Lemma header_indices_from_app (i : nat) (lines more : list string) :
  header_indices_from i (lines ++ more) =
  header_indices_from i lines ++ header_indices_from (i + length lines) more.
Proof.
  revert i. induction lines as [|line rest IH]; intros i; simpl.
  - by rewrite Nat.add_0_r.
  - replace (i + S (length rest))%nat with (S i + length rest)%nat by lia.
    destruct (PyStr.contains "Time" line); simpl; by rewrite IH.
Qed.

Lemma header_indices_from_no_header (i : nat) (lines : list string) :
  Forall (λ line, PyStr.contains "Time" line = false) lines →
  header_indices_from i lines = [].
Proof.
  intros Hnone. revert i.
  induction Hnone as [|line rest Hline _ IH]; intros i; simpl; [done|].
  by rewrite Hline.
Qed.

(** X1. The detected block size is never negative, and it is positive
    exactly when at least two lines of the file contain the marker. *)
Theorem get_lines_per_block_range (lines : list string) :
  0 ≤ _get_lines_per_block lines ∧
  (0 < _get_lines_per_block lines ↔
   (2 ≤ length (filter (λ line, PyStr.contains "Time" line = true) lines))%nat).
Proof.
  rewrite <-(length_header_indices_from 0).
  unfold _get_lines_per_block. rewrite scan_headers_spec.
  pose proof (header_indices_from_increasing 0 lines) as Hsorted.
  destruct (header_indices_from 0 lines) as [|first [|second more]]; simpl.
  - split; [lia|]. split; lia.
  - split; [lia|]. split; lia.
  - apply StronglySorted_inv in Hsorted as [_ Hfirst].
    apply Forall_inv in Hfirst. split; [lia|]. split; lia.
Qed.

(** X2. The detector returns the distance between the first two header
    lines whatever precedes the first of them and whatever follows the
    second: with [body] the lines between them, it is [length body + 1]. *)
Theorem get_lines_per_block_first_block
    (preamble : list string) (first_header : string) (body : list string)
    (second_header : string) (rest : list string) :
  Forall (λ line, PyStr.contains "Time" line = false) preamble →
  PyStr.contains "Time" first_header = true →
  Forall (λ line, PyStr.contains "Time" line = false) body →
  PyStr.contains "Time" second_header = true →
  _get_lines_per_block (preamble ++ first_header :: body ++ second_header :: rest) =
  Z.of_nat (length body) + 1.
Proof.
  intros Hpre Hfirst Hbody Hsecond.
  unfold _get_lines_per_block. rewrite scan_headers_spec.
  rewrite header_indices_from_app, (header_indices_from_no_header _ _ Hpre).
  cbn [app header_indices_from]. rewrite Hfirst.
  rewrite header_indices_from_app, (header_indices_from_no_header _ _ Hbody).
  cbn [app header_indices_from]. rewrite Hsecond. simpl. lia.
Qed.

(** ** Time extraction *)

Section TimeExtractionLaws.

Context {float64 : Type} `{!PyFloat float64}.

(** A header [before=portion] without further [=] gives the float of its
    stripped portion; a line without [=] gives nothing. *)
Lemma header_time_assignment (before portion : string) :
  PyStr.free_of "=" before = true →
  PyStr.free_of "=" portion = true →
  header_time (float64 := float64) (before +:+ String "=" portion) =
  py_float (PyStr.strip_chars (String dquote EmptyString) (PyStr.strip portion)).
Proof.
  intros Hbefore Hportion. unfold header_time.
  by rewrite split_first, split_free.
Qed.

Lemma header_time_no_assignment (line : string) :
  PyStr.free_of "=" line = true →
  header_time (float64 := float64) line = None.
Proof. intros Hline. unfold header_time. by rewrite split_free. Qed.

Lemma parse_time_cases (line : string) :
  match header_time line with
  | Some t => parse_time line = Ok t
  | None => ∃ e, parse_time line = Raise e ∧ caught e = true
  end.
Proof.
  unfold parse_time, header_time.
  destruct (PyStr.split "=" line) as [|before [|portion more]]; simpl.
  - by exists IndexError.
  - by exists IndexError.
  - destruct (py_float _); simpl; [done | by exists ValueError].
Qed.

Lemma parse_times_loop_spec (block_size : Z) (i : nat) (lines : list string)
    (times : list float64) :
  block_size ≠ 0 →
  parse_times_loop block_size i lines times =
  Ok (times ++ omap header_time (lines_at_multiples_from block_size i lines)).
Proof.
  intros Hb. revert i times.
  induction lines as [|line rest IH]; intros i times; simpl.
  - by rewrite app_nil_r.
  - destruct (Z.eqb_spec (Z.of_nat i `mod` block_size) 0) as [Hmod|Hmod].
    + apply Z.mod_divide in Hmod; [|done].
      rewrite decide_True by done. simpl.
      pose proof (parse_time_cases line) as Hline.
      destruct (header_time line) as [t|].
      * by rewrite Hline, IH, <-app_assoc.
      * destruct Hline as (e & -> & ->). apply IH.
    + rewrite decide_False; [apply IH|].
      intros Hdiv. by apply Hmod, Z.mod_divide.
Qed.

Lemma parse_times_from_file_nonzero (lines : list string) (block_size : Z) :
  block_size ≠ 0 →
  _parse_times_from_file lines block_size =
  Ok (omap header_time (lines_at_multiples block_size lines)).
Proof.
  intros Hb. unfold _parse_times_from_file, lines_at_multiples.
  rewrite (proj2 (Z.eqb_neq _ _) Hb). by rewrite parse_times_loop_spec.
Qed.

(** C5. With block size 0 the extractor returns the empty sequence;
    otherwise it returns, in file order, the timestamps of exactly the
    lines whose index is a multiple of the block size, each obtained from
    its own line by [header_time] (split on [=], the portion after it,
    stripped of whitespace and of quote characters, converted to a float);
    a line whose header does not parse contributes nothing, and no
    exception escapes. *)
Theorem parse_times_from_file_spec (lines : list string) (block_size : Z) :
  _parse_times_from_file lines block_size =
  Ok (if decide (block_size = 0) then []
      else omap header_time (lines_at_multiples block_size lines)).
Proof.
  destruct (decide (block_size = 0)) as [->|Hb].
  - reflexivity.
  - by apply parse_times_from_file_nonzero.
Qed.

(** *** How many header lines are visited *)

Lemma elem_of_lines_at_multiples_from (block_size : Z) (i : nat)
    (lines : list string) (line : string) :
  line ∈ lines_at_multiples_from block_size i lines ↔
  ∃ j : nat, lines !! j = Some line ∧ (block_size | Z.of_nat (i + j)).
Proof.
  revert i. induction lines as [|first rest IH]; intros i; simpl.
  - split; [by intros ?%elem_of_nil | by intros (j & ? & _)].
  - assert (∀ j, Z.of_nat (S i + j) = Z.of_nat (i + S j)) as Hshift
      by (intros; lia).
    destruct (decide _) as [Hdiv|Hdiv].
    + rewrite elem_of_cons, IH. split.
      * intros [-> | (j & Hj & Hm)].
        -- exists 0%nat. by rewrite Nat.add_0_r.
        -- exists (S j). by rewrite <-Hshift.
      * intros ([|j] & Hj & Hm); simpl in Hj.
        -- left. congruence.
        -- right. exists j. by rewrite Hshift.
    + rewrite IH. split.
      * intros (j & Hj & Hm). exists (S j). by rewrite <-Hshift.
      * intros ([|j] & Hj & Hm); simpl in Hj.
        -- rewrite Nat.add_0_r in Hm. done.
        -- exists j. by rewrite Hshift.
Qed.

Lemma div_step_multiple (b i : Z) :
  1 ≤ b → 0 ≤ i →
  (i + b) / b = (i + b - 1) / b + (if decide ((b | i)) then 1 else 0).
Proof.
  intros Hb Hi. destruct (decide _) as [[k ->]|Hdiv].
  - rewrite <-(Z.div_unique (k * b + b) b (k + 1) 0) by lia.
    rewrite <-(Z.div_unique (k * b + b - 1) b k (b - 1)) by lia. lia.
  - assert (i `mod` b ≠ 0) as Hr by (intros H0; by apply Hdiv, Z.mod_divide; [lia|]).
    pose proof (Z.mod_pos_bound i b ltac:(lia)) as Hbound.
    pose proof (Z.div_mod i b ltac:(lia)) as Hdm.
    rewrite <-(Z.div_unique (i + b) b (i / b + 1) (i `mod` b)) by lia.
    rewrite <-(Z.div_unique (i + b - 1) b (i / b + 1) (i `mod` b - 1)) by lia.
    lia.
Qed.

Lemma length_lines_at_multiples_from (block_size : Z) (i : nat)
    (lines : list string) :
  1 ≤ block_size →
  Z.of_nat (length (lines_at_multiples_from block_size i lines)) =
  (Z.of_nat (i + length lines) + block_size - 1) / block_size
  - (Z.of_nat i + block_size - 1) / block_size.
Proof.
  intros Hb. revert i. induction lines as [|line rest IH]; intros i; simpl.
  - rewrite Nat.add_0_r. lia.
  - pose proof (div_step_multiple block_size (Z.of_nat i) Hb ltac:(lia)) as Hstep.
    replace (Z.of_nat (i + S (length rest)))
      with (Z.of_nat (S i + length rest)) by lia.
    destruct (decide _); simpl length; rewrite ?Nat2Z.inj_succ, IH;
      replace (Z.of_nat (S i) + block_size - 1)
        with (Z.of_nat i + block_size) by lia; lia.
Qed.

Lemma length_lines_at_multiples (block_size : Z) (lines : list string) :
  1 ≤ block_size →
  Z.of_nat (length (lines_at_multiples block_size lines)) =
  (Z.of_nat (length lines) + block_size - 1) / block_size.
Proof.
  intros Hb. unfold lines_at_multiples.
  rewrite length_lines_at_multiples_from by done. simpl.
  rewrite (Z.div_small (0 + block_size - 1)) by lia. lia.
Qed.

Lemma length_omap_filter (lines : list string) :
  length (omap header_time lines) =
  length (filter (λ line, is_Some (header_time line)) lines).
Proof.
  induction lines as [|line rest IH]; [done|].
  rewrite filter_cons. cbn [omap list_omap].
  destruct (header_time line) eqn:Hline.
  - rewrite decide_True by eauto. cbn [length]. by rewrite IH.
  - rewrite decide_False by (by intros [? ?]). done.
Qed.

(** C10. For a block size of at least 1 the number of extracted times is
    the number of lines at indices 0, block_size, 2*block_size, ... whose
    header parses. The header that opens a truncated trailing block is
    among them: when the line count is not a multiple of the block size
    and every visited header parses, there is one more time than there
    are complete blocks. *)
Theorem parse_times_length (lines : list string) (block_size : Z) :
  1 ≤ block_size →
  ∃ times : list float64,
    _parse_times_from_file lines block_size = Ok times ∧
    length times =
      length (filter (λ line, is_Some (header_time line))
                     (lines_at_multiples block_size lines)) ∧
    (Forall (λ line, is_Some (header_time line))
            (lines_at_multiples block_size lines) →
     Z.of_nat (length lines) `mod` block_size ≠ 0 →
     Z.of_nat (length times) = Z.of_nat (length lines) / block_size + 1).
Proof.
  intros Hb. eexists. split; [apply parse_times_from_file_nonzero; lia|].
  split; [apply length_omap_filter|].
  intros Hall Hpartial.
  rewrite length_omap_filter.
  assert (filter (λ line, is_Some (header_time line))
                 (lines_at_multiples block_size lines)
          = lines_at_multiples block_size lines) as ->.
  { induction Hall as [|line rest Hline _ IH]; [done|].
    by rewrite filter_cons, decide_True, IH. }
  rewrite length_lines_at_multiples by done.
  set (n := Z.of_nat (length lines)) in *.
  pose proof (Z.mod_pos_bound n block_size ltac:(lia)) as Hbound.
  pose proof (Z.div_mod n block_size ltac:(lia)) as Hdm.
  symmetry.
  apply (Z.div_unique (n + block_size - 1) block_size
           (n / block_size + 1) (n `mod` block_size - 1)); lia.
Qed.

(** *** Files made of whole blocks, and files that grow *)

Lemma lines_at_multiples_from_app (block_size : Z) (i : nat)
    (lines more : list string) :
  lines_at_multiples_from block_size i (lines ++ more) =
  lines_at_multiples_from block_size i lines ++
  lines_at_multiples_from block_size (i + length lines) more.
Proof.
  revert i. induction lines as [|line rest IH]; intros i; simpl.
  - by rewrite Nat.add_0_r.
  - replace (i + S (length rest))%nat with (S i + length rest)%nat by lia.
    destruct (decide _); simpl; by rewrite IH.
Qed.

Lemma lines_at_multiples_from_none (block_size : Z) (i : nat)
    (lines : list string) :
  (∀ j : nat, (j < length lines)%nat → ¬ (block_size | Z.of_nat (i + j))) →
  lines_at_multiples_from block_size i lines = [].
Proof.
  revert i. induction lines as [|line rest IH]; intros i Hnone; simpl; [done|].
  rewrite decide_False.
  - apply IH. intros j Hj.
    replace (S i + j)%nat with (i + S j)%nat by lia.
    apply Hnone. simpl. lia.
  - specialize (Hnone 0%nat). rewrite Nat.add_0_r in Hnone.
    apply Hnone. simpl. lia.
Qed.

Lemma not_multiple_inside (block_size k r : Z) :
  0 < r < block_size → ¬ (block_size | k * block_size + r).
Proof.
  intros Hr Hdiv. apply Z.mod_divide in Hdiv; [|lia].
  rewrite Z.add_comm, Z.mod_add in Hdiv by lia.
  rewrite Z.mod_small in Hdiv by lia. lia.
Qed.

Lemma lines_at_multiples_from_block (block_size : Z) (i : nat)
    (header : string) (body rest : list string) :
  1 ≤ block_size →
  (block_size | Z.of_nat i) →
  Z.of_nat (length body) = block_size - 1 →
  lines_at_multiples_from block_size i (header :: body ++ rest) =
  header :: lines_at_multiples_from block_size (i + Z.to_nat block_size) rest.
Proof.
  intros Hb [k Hk] Hbody. cbn [lines_at_multiples_from].
  rewrite decide_True by by exists k.
  rewrite lines_at_multiples_from_app, lines_at_multiples_from_none.
  - simpl. do 2 f_equal. lia.
  - intros j Hj.
    replace (Z.of_nat (S i + j)) with (k * block_size + (1 + Z.of_nat j)) by lia.
    apply not_multiple_inside. lia.
Qed.

Lemma lines_at_multiples_from_tail (block_size : Z) (i : nat)
    (tail : list string) :
  1 ≤ block_size →
  (block_size | Z.of_nat i) →
  Z.of_nat (length tail) ≤ block_size →
  lines_at_multiples_from block_size i tail = take 1 tail.
Proof.
  intros Hb [k Hk] Htail. destruct tail as [|header partial]; [done|].
  cbn [lines_at_multiples_from]. rewrite decide_True by by exists k.
  rewrite lines_at_multiples_from_none; [done|].
  intros j Hj. simpl in Htail.
  replace (Z.of_nat (S i + j)) with (k * block_size + (1 + Z.of_nat j)) by lia.
  apply not_multiple_inside. lia.
Qed.

Lemma lines_at_multiples_from_blocks (block_size : Z) (i : nat)
    (blocks : list (string * list string)) (tail : list string) :
  1 ≤ block_size →
  (block_size | Z.of_nat i) →
  Forall (λ block, Z.of_nat (length block.2) = block_size - 1) blocks →
  Z.of_nat (length tail) ≤ block_size →
  lines_at_multiples_from block_size i
    (concat ((λ block, block.1 :: block.2) <$> blocks) ++ tail) =
  blocks.*1 ++ take 1 tail.
Proof.
  intros Hb Hi Hblocks Htail. revert i Hi.
  induction Hblocks as [|[header body] blocks Hbody _ IH]; intros i Hi.
  - by apply lines_at_multiples_from_tail.
  - cbn [fmap list_fmap concat fst snd]. rewrite <-!app_assoc.
    change ((header :: body) ++ ?l) with (header :: body ++ l).
    rewrite lines_at_multiples_from_block by done.
    cbn [app]. f_equal. apply IH.
    destruct Hi as [k Hk]. exists (k + 1). lia.
Qed.

(** X3. A file made of whole blocks of [block_size] lines, each a header
    followed by [block_size - 1] other lines, and then at most one further
    (possibly partial) block, yields the times of the block headers in
    order, a header that does not parse being left out. *)
Theorem parse_times_blocks (blocks : list (string * list string))
    (tail : list string) (block_size : Z) :
  1 ≤ block_size →
  Forall (λ block, Z.of_nat (length block.2) = block_size - 1) blocks →
  Z.of_nat (length tail) ≤ block_size →
  _parse_times_from_file
    (concat ((λ block, block.1 :: block.2) <$> blocks) ++ tail) block_size =
  Ok (omap header_time (blocks.*1 ++ take 1 tail)).
Proof.
  intros Hb Hblocks Htail.
  rewrite parse_times_from_file_nonzero by lia.
  unfold lines_at_multiples.
  rewrite lines_at_multiples_from_blocks; [done..| |done|done].
  exists 0. lia.
Qed.

(** X4. Lines added at the end of a file only add times at the end: the
    times of the longer file start with the times of the shorter one. *)
Theorem parse_times_append (lines more : list string) (block_size : Z) :
  ∃ earlier later : list float64,
    _parse_times_from_file lines block_size = Ok earlier ∧
    _parse_times_from_file (lines ++ more) block_size = Ok (earlier ++ later).
Proof.
  destruct (decide (block_size = 0)) as [->|Hb].
  - by exists [], [].
  - exists (omap header_time (lines_at_multiples block_size lines)),
      (omap header_time
         (lines_at_multiples_from block_size (0 + length lines) more)).
    rewrite !parse_times_from_file_nonzero by done.
    unfold lines_at_multiples.
    by rewrite lines_at_multiples_from_app, omap_app.
Qed.

(** *** Whitespace and quotes around the number *)

Lemma lstrip_where_lead (drop : ascii → bool) (lead s : string) :
  every drop lead = true →
  PyStr.lstrip_where drop (lead +:+ s) = PyStr.lstrip_where drop s.
Proof.
  induction lead as [|c lead IH]; [done|].
  intros [Hc Hlead]%andb_prop.
  change (String c lead +:+ s) with (String c (lead +:+ s)).
  cbn [PyStr.lstrip_where]. rewrite Hc. by apply IH.
Qed.

Lemma lstrip_where_kept (drop : ascii → bool) (s : string) :
  first_kept drop s = true → PyStr.lstrip_where drop s = s.
Proof.
  destruct s as [|c s]; [done|]. simpl.
  by intros ->%negb_true_iff.
Qed.

Lemma rstrip_where_all (drop : ascii → bool) (s : string) :
  every drop s = true → PyStr.rstrip_where drop s = EmptyString.
Proof.
  induction s as [|c s IH]; [done|].
  intros [Hc Hs]%andb_prop. cbn [PyStr.rstrip_where].
  by rewrite IH, Hc.
Qed.

Lemma rstrip_where_trail (drop : ascii → bool) (s trail : string) :
  every drop trail = true →
  PyStr.rstrip_where drop (s +:+ trail) = PyStr.rstrip_where drop s.
Proof.
  intros Htrail. induction s as [|c s IH].
  - change (EmptyString +:+ trail) with trail. by rewrite rstrip_where_all.
  - change (String c s +:+ trail) with (String c (s +:+ trail)).
    cbn [PyStr.rstrip_where]. by rewrite IH.
Qed.

Lemma rstrip_where_cons (drop : ascii → bool) (c : ascii) (s : string) :
  PyStr.rstrip_where drop (String c s) =
  match PyStr.rstrip_where drop s with
  | EmptyString => if drop c then EmptyString else String c EmptyString
  | kept => String c kept
  end.
Proof. reflexivity. Qed.

Lemma rstrip_where_kept (drop : ascii → bool) (s : string) :
  last_kept drop s = true → PyStr.rstrip_where drop s = s.
Proof.
  induction s as [|c s IH]; [done|].
  destruct s as [|c' s].
  - simpl. by intros ->%negb_true_iff.
  - intros Hlast. rewrite rstrip_where_cons, IH by exact Hlast. done.
Qed.

Lemma first_kept_app (drop : ascii → bool) (s more : string) :
  first_kept drop s = true → first_kept drop (s +:+ more) = true.
Proof. by destruct s. Qed.

Lemma last_kept_app (drop : ascii → bool) (lead s : string) :
  last_kept drop s = true → last_kept drop (lead +:+ s) = true.
Proof.
  intros Hs. induction lead as [|c lead IH]; [done|].
  change (String c lead +:+ s) with (String c (lead +:+ s)).
  cbn [last_kept]. by destruct (lead +:+ s).
Qed.

(** What is left of [lead core trail] once the dropped characters of
    [lead] and [trail] are stripped is [core]. *)
Lemma strip_where_core (drop : ascii → bool) (lead core trail : string) :
  every drop lead = true →
  every drop trail = true →
  first_kept drop core = true →
  last_kept drop core = true →
  PyStr.strip_where drop (lead +:+ core +:+ trail) = core.
Proof.
  intros Hlead Htrail Hfirst Hlast. unfold PyStr.strip_where.
  rewrite lstrip_where_lead by done.
  rewrite lstrip_where_kept by by apply first_kept_app.
  rewrite rstrip_where_trail by done.
  by apply rstrip_where_kept.
Qed.

Lemma every_free_of (p : ascii → bool) (sep : ascii) (s : string) :
  p sep = false → every p s = true → PyStr.free_of sep s = true.
Proof.
  intros Hsep. induction s as [|c s IH]; [done|].
  simpl. intros [Hc Hs]%andb_prop. rewrite IH by done.
  destruct (Ascii.eqb_spec c sep) as [->|]; [congruence | done].
Qed.

Lemma free_of_app (sep : ascii) (s more : string) :
  PyStr.free_of sep s = true → PyStr.free_of sep more = true →
  PyStr.free_of sep (s +:+ more) = true.
Proof.
  intros Hs Hmore. induction s as [|c s IH]; [done|].
  change (String c s +:+ more) with (String c (s +:+ more)).
  simpl in *. apply andb_prop in Hs as [-> Hs]. by rewrite IH.
Qed.

Lemma first_kept_weaken (drop other : ascii → bool) (s : string) :
  first_kept (λ c, drop c || other c) s = true →
  first_kept drop s = true ∧ first_kept other s = true.
Proof.
  destruct s as [|c s]; [done|]. simpl.
  intros [-> ->]%negb_true_iff%orb_false_elim. done.
Qed.

Lemma last_kept_weaken (drop other : ascii → bool) (s : string) :
  last_kept (λ c, drop c || other c) s = true →
  last_kept drop s = true ∧ last_kept other s = true.
Proof.
  induction s as [|c s IH]; [done|].
  destruct s as [|c' s]; [|exact IH]. simpl.
  intros [-> ->]%negb_true_iff%orb_false_elim. done.
Qed.

Lemma every_first_kept (p drop : ascii → bool) (quotes core : string) :
  (∀ c, p c = true → drop c = false) →
  every p quotes = true → first_kept drop core = true →
  first_kept drop (quotes +:+ core) = true.
Proof.
  intros Hp Hquotes Hcore. destruct quotes as [|c quotes]; [done|].
  simpl in *. apply andb_prop in Hquotes as [Hc _]. by rewrite (Hp c Hc).
Qed.

Lemma every_last_kept (p drop : ascii → bool) (core quotes : string) :
  (∀ c, p c = true → drop c = false) →
  every p quotes = true → last_kept drop core = true →
  last_kept drop (core +:+ quotes) = true.
Proof.
  intros Hp Hquotes Hcore.
  induction core as [|c core IH]; [done|].
  change (String c core +:+ quotes) with (String c (core +:+ quotes)).
  destruct core as [|c' core].
  - change (EmptyString +:+ quotes) with quotes.
    destruct quotes as [|q quotes]; [done|].
    cbn [last_kept]. clear IH Hcore.
    revert q Hquotes. induction quotes as [|q' quotes IH]; intros q Hq.
    + simpl in *. apply andb_prop in Hq as [Hq _]. by rewrite (Hp q Hq).
    + apply IH. simpl in Hq. by apply andb_prop in Hq as [_ ?].
  - change (String c' core +:+ quotes) with (String c' (core +:+ quotes)) in *.
    cbn [last_kept]. apply IH. exact Hcore.
Qed.

Lemma lstrip_where_ext (f g : ascii → bool) (s : string) :
  (∀ c, f c = g c) → PyStr.lstrip_where f s = PyStr.lstrip_where g s.
Proof.
  intros Hfg. induction s as [|c s IH]; [done|].
  cbn [PyStr.lstrip_where]. by rewrite Hfg, IH.
Qed.

Lemma rstrip_where_ext (f g : ascii → bool) (s : string) :
  (∀ c, f c = g c) → PyStr.rstrip_where f s = PyStr.rstrip_where g s.
Proof.
  intros Hfg. induction s as [|c s IH]; [done|].
  by rewrite !rstrip_where_cons, Hfg, IH.
Qed.

Lemma strip_chars_dquote (s : string) :
  PyStr.strip_chars (String dquote EmptyString) s = PyStr.strip_where is_dquote s.
Proof.
  assert (∀ c, existsb (Ascii.eqb c)
                 (list_ascii_of_string (String dquote EmptyString))
               = is_dquote c) as Hsame.
  { intros c. unfold is_dquote. simpl. apply orb_false_r. }
  unfold PyStr.strip_chars, PyStr.strip_where.
  rewrite (lstrip_where_ext _ is_dquote) by exact Hsame.
  by apply rstrip_where_ext.
Qed.

(** X5. A header [before = number], where the number may be wrapped in
    double quotes and surrounded by whitespace, is read as the float of the
    bare number: the whitespace and the quotes play no part. *)
Theorem parse_time_number (before lead opening core closing trail : string) :
  PyStr.free_of "=" before = true →
  PyStr.free_of "=" core = true →
  every PyStr.isspace lead = true →
  every PyStr.isspace trail = true →
  every is_dquote opening = true →
  every is_dquote closing = true →
  first_kept (λ c, PyStr.isspace c || is_dquote c) core = true →
  last_kept (λ c, PyStr.isspace c || is_dquote c) core = true →
  parse_time
    (before +:+ String "=" (lead +:+ (opening +:+ core +:+ closing) +:+ trail)) =
  of_option ValueError (py_float core).
Proof.
  intros Hbefore Hcore Hlead Htrail Hopen Hclose Hfirst Hlast.
  apply first_kept_weaken in Hfirst as [Hfirst_space Hfirst_quote].
  apply last_kept_weaken in Hlast as [Hlast_space Hlast_quote].
  assert (∀ c, is_dquote c = true → PyStr.isspace c = false) as Hquote_space.
  { intros c Hc. unfold is_dquote in Hc.
    by apply Ascii.eqb_eq in Hc as ->. }
  unfold parse_time. rewrite split_first by done.
  rewrite split_free.
  2:{ repeat apply free_of_app; try done.
      - by apply (every_free_of PyStr.isspace).
      - by apply (every_free_of is_dquote).
      - by apply (every_free_of is_dquote).
      - by apply (every_free_of PyStr.isspace). }
  cbn [lookup list_lookup of_option mbind result_bind].
  unfold PyStr.strip at 1.
  rewrite strip_where_core; try done.
  - rewrite strip_chars_dquote, strip_where_core; done.
  - apply (every_first_kept is_dquote); [done..|].
    by apply first_kept_app.
  - apply last_kept_app. by apply (every_last_kept is_dquote).
Qed.

End TimeExtractionLaws.

(** ** The merge *)

Section MergeLaws.

Context {float64 : Type}.
Context `{!Float64Order float64} `{!ReadCsv float64} `{!PyFloat float64}.

Local Abbreviation Row := (Row float64).
Local Abbreviation Dataset := (Dataset float64).
Local Abbreviation NRDataReader := (NRDataReader float64).

(** *** Uniqueness of the index *)

Lemma feq_sym (a b : float64) : feq a b = feq b a.
Proof. unfold feq. apply andb_comm. Qed.

Lemma same_key_sym (r s : Row) : same_key r s = same_key s r.
Proof. unfold same_key. by rewrite (feq_sym (time r)), (feq_sym (x_coordinate r)). Qed.

Lemma elem_of_drop_duplicates_last (r : Row) (df : list Row) :
  r ∈ drop_duplicates_last df → r ∈ df.
Proof.
  induction df as [|s rest IH]; simpl; [done|].
  destruct (existsb (same_key s) rest).
  - intros ?%IH. by right.
  - intros [->|?%IH]%elem_of_cons; [left | by right].
Qed.

Lemma existsb_false_elem_of (p : Row → bool) (df : list Row) (r : Row) :
  existsb p df = false → r ∈ df → p r = false.
Proof.
  induction df as [|s rest IH]; simpl.
  - by intros _ ?%elem_of_nil.
  - intros [Hs Hrest]%orb_false_elim [->|Hin]%elem_of_cons; auto.
Qed.

Lemma drop_duplicates_last_unique (df : list Row) (i j : nat) (r s : Row) :
  drop_duplicates_last df !! i = Some r →
  drop_duplicates_last df !! j = Some s →
  same_key r s = true → i = j.
Proof.
  revert i j. induction df as [|first rest IH]; intros i j; simpl; [done|].
  destruct (existsb (same_key first) rest) eqn:Hdup; [apply IH|].
  destruct i as [|i], j as [|j]; simpl; try done.
  - intros [= <-] Hs Hkey.
    apply list_elem_of_lookup_2, elem_of_drop_duplicates_last in Hs.
    by rewrite (existsb_false_elem_of _ _ _ Hdup Hs) in Hkey.
  - intros Hr [= <-] Hkey.
    apply list_elem_of_lookup_2, elem_of_drop_duplicates_last in Hr.
    rewrite same_key_sym in Hkey.
    by rewrite (existsb_false_elem_of _ _ _ Hdup Hr) in Hkey.
  - intros Hr Hs Hkey. f_equal. by eapply IH.
Qed.

Lemma to_entry_unique_keys (df : list Row) :
  unique_keys (to_entry <$> drop_duplicates_last df).
Proof.
  intros i j e1 e2.
  rewrite !list_lookup_fmap_Some.
  intros (r & -> & Hr) (s & -> & Hs) Hkey.
  by eapply drop_duplicates_last_unique.
Qed.

(** C2. Whatever level frames enter the merge, no two entries of the merged
    dataset share a (time, position) key. *)
Theorem merge_levels_unique_keys (all_levels_dfs : list (list Row)) :
  unique_keys (merge_levels all_levels_dfs).
Proof.
  unfold merge_levels.
  destruct all_levels_dfs as [|df dfs].
  - intros i j e1 e2 He1. by destruct i.
  - apply to_entry_unique_keys.
Qed.

(** *** The sort order *)

Hypothesis fle_total : ∀ a b : float64, fle a b = true ∨ fle b a = true.
Hypothesis fle_trans :
  ∀ a b c : float64, fle a b = true → fle b c = true → fle a c = true.

Lemma fle_refl (a : float64) : fle a a = true.
Proof. by destruct (fle_total a a). Qed.

Lemma feq_refl (a : float64) : feq a a = true.
Proof. unfold feq. by rewrite fle_refl. Qed.

Lemma feq_trans (a b c : float64) :
  feq a b = true → feq b c = true → feq a c = true.
Proof.
  unfold feq. intros [??]%andb_prop [??]%andb_prop.
  apply andb_true_intro. split; by eapply fle_trans.
Qed.

Lemma flt_trans (a b c : float64) :
  flt a b = true → flt b c = true → flt a c = true.
Proof.
  unfold flt. intros Hab%negb_true_iff Hbc%negb_true_iff.
  apply negb_true_iff. destruct (fle c a) eqn:Hca; [|done].
  destruct (fle_total a b) as [Hle|Hle]; [|congruence].
  by rewrite (fle_trans c a b Hca Hle) in Hbc.
Qed.

Lemma flt_feq_trans (a b c : float64) :
  flt a b = true → feq b c = true → flt a c = true.
Proof.
  unfold flt, feq. intros Hab%negb_true_iff [Hbc Hcb]%andb_prop.
  apply negb_true_iff. destruct (fle c a) eqn:Hca; [|done].
  by rewrite (fle_trans b c a Hbc Hca) in Hab.
Qed.

Lemma feq_flt_trans (a b c : float64) :
  feq a b = true → flt b c = true → flt a c = true.
Proof.
  unfold flt, feq. intros [Hab Hba]%andb_prop Hbc%negb_true_iff.
  apply negb_true_iff. destruct (fle c a) eqn:Hca; [|done].
  by rewrite (fle_trans c a b Hca Hab) in Hbc.
Qed.

Lemma flt_not_feq (a b : float64) : flt a b = true → feq a b = false.
Proof.
  unfold flt, feq. intros ->%negb_true_iff. apply andb_false_r.
Qed.

Lemma flt_asym (a b : float64) : flt a b = true → flt b a = false.
Proof.
  unfold flt. intros Hab%negb_true_iff. apply negb_false_iff.
  by destruct (fle_total a b) as [?|?]; [|congruence].
Qed.

Lemma not_flt_feq (a b : float64) :
  flt a b = false → flt b a = false → feq a b = true.
Proof.
  unfold flt, feq. by intros ->%negb_false_iff ->%negb_false_iff.
Qed.

(** [row_le] read as a lexicographic order. *)
Lemma row_le_true_iff (r s : Row) :
  row_le r s = true ↔
  flt (time r) (time s) = true ∨
  feq (time r) (time s) = true ∧
  (flt (x_coordinate r) (x_coordinate s) = true ∨
   feq (x_coordinate r) (x_coordinate s) = true ∧ (level r ≤ level s)%nat).
Proof.
  unfold row_le.
  destruct (flt (time r) (time s)) eqn:Ht1; [intuition congruence|].
  destruct (flt (time s) (time r)) eqn:Ht2.
  { rewrite feq_sym, (flt_not_feq _ _ Ht2). intuition congruence. }
  rewrite (not_flt_feq _ _ Ht1 Ht2).
  destruct (flt (x_coordinate r) (x_coordinate s)) eqn:Hx1; [intuition congruence|].
  destruct (flt (x_coordinate s) (x_coordinate r)) eqn:Hx2.
  { rewrite (feq_sym (x_coordinate r)), (flt_not_feq _ _ Hx2). intuition congruence. }
  rewrite (not_flt_feq _ _ Hx1 Hx2), Nat.leb_le. intuition congruence.
Qed.

Lemma row_le_false_iff (r s : Row) :
  row_le r s = false ↔
  flt (time s) (time r) = true ∨
  feq (time r) (time s) = true ∧
  (flt (x_coordinate s) (x_coordinate r) = true ∨
   feq (x_coordinate r) (x_coordinate s) = true ∧ (level s < level r)%nat).
Proof.
  unfold row_le.
  destruct (flt (time r) (time s)) eqn:Ht1.
  { rewrite (flt_asym _ _ Ht1), (flt_not_feq _ _ Ht1). intuition congruence. }
  destruct (flt (time s) (time r)) eqn:Ht2; [intuition congruence|].
  rewrite (not_flt_feq _ _ Ht1 Ht2).
  destruct (flt (x_coordinate r) (x_coordinate s)) eqn:Hx1.
  { rewrite (flt_asym _ _ Hx1), (flt_not_feq _ _ Hx1). intuition congruence. }
  destruct (flt (x_coordinate s) (x_coordinate r)) eqn:Hx2; [intuition congruence|].
  rewrite (not_flt_feq _ _ Hx1 Hx2), Nat.leb_gt. intuition congruence.
Qed.

Lemma row_le_total (r s : Row) : row_le r s = true ∨ row_le s r = true.
Proof.
  destruct (row_le r s) eqn:Hrs; [by left | right].
  apply row_le_false_iff in Hrs. apply row_le_true_iff.
  rewrite (feq_sym (time s)), (feq_sym (x_coordinate s)).
  destruct Hrs as [?|[? [?|[? ?]]]]; auto with lia.
Qed.

Lemma row_le_trans (r s u : Row) :
  row_le r s = true → row_le s u = true → row_le r u = true.
Proof.
  rewrite !row_le_true_iff.
  intros [Ht1|[Ht1 Hx1]] [Ht2|[Ht2 Hx2]].
  - left. by eapply flt_trans.
  - left. by eapply flt_feq_trans.
  - left. by eapply feq_flt_trans.
  - right. split; [by eapply feq_trans|].
    destruct Hx1 as [Hx1|[Hx1 Hl1]], Hx2 as [Hx2|[Hx2 Hl2]].
    + left. by eapply flt_trans.
    + left. by eapply flt_feq_trans.
    + left. by eapply feq_flt_trans.
    + right. split; [by eapply feq_trans | lia].
Qed.

Lemma row_le_same_key (r s : Row) :
  same_key r s = true → row_le r s = (level r <=? level s)%nat.
Proof.
  unfold same_key. intros [Ht Hx]%andb_prop.
  destruct (level r <=? level s)%nat eqn:Hl.
  - apply row_le_true_iff. apply Nat.leb_le in Hl. auto.
  - apply row_le_false_iff. apply Nat.leb_gt in Hl. auto.
Qed.

(** *** Sorting is stable and sorts *)

Lemma elem_of_insert_row (r s : Row) (df : list Row) :
  s ∈ insert_row r df ↔ s = r ∨ s ∈ df.
Proof.
  induction df as [|first rest IH]; simpl.
  - rewrite list_elem_of_singleton, elem_of_nil. tauto.
  - destruct (row_le r first).
    + by rewrite elem_of_cons.
    + rewrite !elem_of_cons, IH. tauto.
Qed.

Lemma insert_row_sorted (r : Row) (df : list Row) :
  row_sorted df → row_sorted (insert_row r df).
Proof.
  unfold row_sorted.
  induction df as [|first rest IH]; simpl; intros Hsorted.
  - by repeat constructor.
  - apply StronglySorted_inv in Hsorted as [Hrest Hfirst].
    destruct (row_le r first) eqn:Hle.
    + constructor; [by constructor|].
      constructor; [done|].
      eapply Forall_impl; [exact Hfirst|].
      intros s Hs. by eapply row_le_trans.
    + constructor; [by apply IH|].
      apply Forall_forall. intros s [->|Hs]%elem_of_insert_row.
      * by destruct (row_le_total r first); [congruence|].
      * by eapply Forall_forall in Hfirst.
Qed.

Lemma sort_values_sorted (df : list Row) : row_sorted (sort_values df).
Proof.
  induction df as [|r rest IH]; simpl.
  - constructor.
  - by apply insert_row_sorted.
Qed.

Lemma elem_of_sort_values (r : Row) (df : list Row) :
  r ∈ sort_values df ↔ r ∈ df.
Proof.
  induction df as [|first rest IH]; simpl; [done|].
  by rewrite elem_of_insert_row, elem_of_cons, IH.
Qed.

Lemma sort_values_of_sorted (df : list Row) :
  row_sorted df → sort_values df = df.
Proof.
  unfold row_sorted.
  induction df as [|r rest IH]; simpl; [done|].
  intros [Hrest Hr]%StronglySorted_inv.
  rewrite IH by done.
  destruct rest as [|s rest']; simpl; [done|].
  by rewrite (Forall_inv Hr).
Qed.

(** *** Which row of a key survives *)

Lemma has_key_same_key (t x : float64) (r s : Row) :
  has_key t x r = true → has_key t x s = true → same_key r s = true.
Proof.
  unfold has_key, same_key.
  intros [Ht1 Hx1]%andb_prop [Ht2 Hx2]%andb_prop.
  rewrite feq_sym in Ht2. rewrite feq_sym in Hx2.
  apply andb_true_intro. split; by eapply feq_trans.
Qed.

Lemma same_key_has_key (t x : float64) (r s : Row) :
  same_key r s = true → has_key t x r = true → has_key t x s = true.
Proof.
  unfold has_key, same_key.
  intros [Ht1 Hx1]%andb_prop [Ht2 Hx2]%andb_prop.
  rewrite feq_sym in Ht1. rewrite feq_sym in Hx1.
  apply andb_true_intro. split; by eapply feq_trans.
Qed.

Lemma has_key_self (r : Row) : has_key (time r) (x_coordinate r) r = true.
Proof. unfold has_key. by rewrite !feq_refl. Qed.

Lemma last_at_Some (t x : float64) (df : list Row) (c : Row) :
  last_at t x df = Some c → c ∈ df ∧ has_key t x c = true.
Proof.
  induction df as [|r rest IH]; simpl; [done|].
  destruct (last_at t x rest) as [later|].
  - intros [= <-]. destruct IH as [??]; [done|]. split; [by right | done].
  - destruct (has_key t x r) eqn:Hr; [|done].
    intros [= <-]. split; [by left | done].
Qed.

Lemma last_at_None (t x : float64) (df : list Row) (r : Row) :
  last_at t x df = None → r ∈ df → has_key t x r = false.
Proof.
  induction df as [|s rest IH]; simpl.
  - by intros _ ?%elem_of_nil.
  - destruct (last_at t x rest); [done|].
    destruct (has_key t x s) eqn:Hs; [done|].
    intros _ [->|Hin]%elem_of_cons; auto.
Qed.

Lemma best_at_Some (t x : float64) (df : list Row) (c : Row) :
  best_at t x df = Some c → c ∈ df ∧ has_key t x c = true.
Proof.
  revert c. induction df as [|r rest IH]; intros c; simpl; [done|].
  unfold prefer. destruct (best_at t x rest) as [later|].
  - destruct (has_key t x r) eqn:Hr; simpl.
    + destruct (level later <? level r)%nat; intros [= <-].
      * split; [by left | done].
      * destruct (IH later) as [??]; [done|]. split; [by right | done].
    + intros [= <-]. destruct (IH later) as [??]; [done|]. split; [by right | done].
  - destruct (has_key t x r) eqn:Hr; [|done].
    intros [= <-]. split; [by left | done].
Qed.

Lemma existsb_same_key_last_at (t x : float64) (r : Row) (df : list Row) :
  has_key t x r = true →
  existsb (same_key r) df = true ↔ is_Some (last_at t x df).
Proof.
  intros Hr. split.
  - intros (s & Hs & Hkey)%existsb_exists.
    apply list_elem_of_In in Hs.
    destruct (last_at t x df) eqn:Hlast; [by eauto|].
    pose proof (last_at_None _ _ _ _ Hlast Hs) as Hnone.
    by rewrite (same_key_has_key _ _ _ _ Hkey Hr) in Hnone.
  - intros [c [Hc Hkey]%last_at_Some].
    apply existsb_exists. exists c.
    split; [by apply list_elem_of_In | by eapply has_key_same_key].
Qed.

Lemma loc_drop_duplicates_last (t x : float64) (df : list Row) :
  loc (to_entry <$> drop_duplicates_last df) t x = value <$> last_at t x df.
Proof.
  induction df as [|r rest IH]; simpl; [done|].
  destruct (has_key t x r) eqn:Hr.
  - pose proof (existsb_same_key_last_at t x r rest Hr) as Hdup.
    destruct (existsb (same_key r) rest).
    + destruct (proj1 Hdup eq_refl) as [c Hc]. by rewrite IH, Hc.
    + destruct (last_at t x rest) as [c|] eqn:Hc.
      * destruct Hdup as [_ Hdup]. by discriminate Hdup.
      * unfold has_key in Hr. by rewrite fmap_cons; simpl; rewrite Hr.
  - destruct (existsb (same_key r) rest).
    + rewrite IH. by destruct (last_at t x rest).
    + unfold has_key in Hr. rewrite fmap_cons; simpl; rewrite Hr, IH.
      by destruct (last_at t x rest).
Qed.

Lemma last_at_sorted (t x : float64) (df : list Row) :
  row_sorted df → last_at t x df = best_at t x df.
Proof.
  unfold row_sorted.
  induction df as [|r rest IH]; simpl; [done|].
  intros [Hrest Hr]%StronglySorted_inv.
  rewrite <-IH by done. unfold prefer.
  destruct (last_at t x rest) as [c|] eqn:Hc; [|done].
  destruct (has_key t x r) eqn:Hkey; [|done]. simpl.
  apply last_at_Some in Hc as [Hin Hckey].
  eapply Forall_forall in Hr; [|done].
  rewrite row_le_same_key in Hr by by eapply has_key_same_key.
  apply Nat.leb_le in Hr.
  by rewrite (proj2 (Nat.ltb_ge _ _) Hr).
Qed.

Lemma prefer_swap (t x : float64) (r s : Row) (later : option Row) :
  row_le r s = false →
  prefer t x s (prefer t x r later) = prefer t x r (prefer t x s later).
Proof.
  intros Hle. unfold prefer.
  destruct (has_key t x r) eqn:Hr, (has_key t x s) eqn:Hs; simpl;
    try (by destruct later; simpl; rewrite ?Hr, ?Hs; simpl;
         repeat case_match; simplify_eq/=; rewrite ?Hr, ?Hs).
  rewrite row_le_same_key in Hle by by eapply has_key_same_key.
  apply Nat.leb_gt in Hle.
  destruct later as [c|]; simpl; rewrite ?Hr, ?Hs; simpl;
    repeat (case_match; simpl; rewrite ?Hr, ?Hs; simpl); simplify_eq/=;
    repeat match goal with
      | H : (_ <? _)%nat = true |- _ => apply Nat.ltb_lt in H
      | H : (_ <? _)%nat = false |- _ => apply Nat.ltb_ge in H
      end; try done; lia.
Qed.

Lemma best_at_insert_row (t x : float64) (r : Row) (df : list Row) :
  best_at t x (insert_row r df) = prefer t x r (best_at t x df).
Proof.
  induction df as [|s rest IH]; simpl; [done|].
  destruct (row_le r s) eqn:Hle; simpl; [done|].
  by rewrite IH, prefer_swap.
Qed.

Lemma best_at_sort_values (t x : float64) (df : list Row) :
  best_at t x (sort_values df) = best_at t x df.
Proof.
  induction df as [|r rest IH]; simpl; [done|].
  by rewrite best_at_insert_row, IH.
Qed.

(** The value the merged dataset holds under a key is that of the row of
    highest level at that key among all rows entering the merge. *)
Lemma loc_merge_levels (all_levels_dfs : list (list Row)) (t x : float64) :
  loc (merge_levels all_levels_dfs) t x =
  value <$> best_at t x (concat all_levels_dfs).
Proof.
  unfold merge_levels. destruct all_levels_dfs as [|df dfs]; [done|].
  rewrite loc_drop_duplicates_last, last_at_sorted by apply sort_values_sorted.
  by rewrite best_at_sort_values.
Qed.

Lemma best_at_last_highest (before after : list Row) (rb : Row) :
  (∀ s, s ∈ before → same_key s rb = true → (level s ≤ level rb)%nat) →
  (∀ s, s ∈ after → same_key s rb = true → (level s < level rb)%nat) →
  best_at (time rb) (x_coordinate rb) (before ++ rb :: after) = Some rb.
Proof.
  intros Hbefore Hafter.
  assert (best_at (time rb) (x_coordinate rb) (rb :: after) = Some rb) as Hrb.
  { simpl. unfold prefer. rewrite has_key_self.
    destruct (best_at _ _ after) as [c|] eqn:Hc; [|done].
    apply best_at_Some in Hc as [Hin Hkey]. simpl.
    assert (level c < level rb)%nat as Hlt.
    { apply Hafter; [done|]. eapply has_key_same_key; [done|apply has_key_self]. }
    by rewrite (proj2 (Nat.ltb_lt _ _) Hlt). }
  induction before as [|s before IH]; simpl; [done|].
  rewrite IH by (intros; apply Hbefore; [by right | done]).
  unfold prefer.
  destruct (has_key (time rb) (x_coordinate rb) s) eqn:Hs; [|done]. simpl.
  assert (level s ≤ level rb)%nat as Hle.
  { apply Hbefore; [by left|]. eapply has_key_same_key; [done|apply has_key_self]. }
  by rewrite (proj2 (Nat.ltb_ge _ _) Hle).
Qed.

(** C1 (as amended). Of two rows with the same (time, position) key and
    levels a < b that enter the merge, the merged dataset holds the value of
    the level-b row at that key whenever b is the highest level present at
    the key and the row is the last of that level there in input order. *)
Theorem merge_levels_override (all_levels_dfs : list (list Row))
    (before after : list Row) (ra rb : Row) :
  concat all_levels_dfs = before ++ rb :: after →
  ra ∈ concat all_levels_dfs →
  same_key ra rb = true →
  (level ra < level rb)%nat →
  (∀ s, s ∈ before → same_key s rb = true → (level s ≤ level rb)%nat) →
  (∀ s, s ∈ after → same_key s rb = true → (level s < level rb)%nat) →
  loc (merge_levels all_levels_dfs) (time rb) (x_coordinate rb) = Some (value rb).
Proof.
  intros Hrows _ _ _ Hbefore Hafter.
  rewrite loc_merge_levels, Hrows.
  by rewrite best_at_last_highest.
Qed.

(** *** Merging a merged dataset again *)

Lemma as_level_to_entry (lvl : nat) (df : list Row) :
  as_level lvl (to_entry <$> df) = set_level lvl <$> df.
Proof. unfold as_level. by rewrite <-list_fmap_compose. Qed.

Lemma to_entry_set_level (lvl : nat) (df : list Row) :
  to_entry <$> (set_level lvl <$> df) = to_entry <$> df.
Proof. by rewrite <-list_fmap_compose. Qed.

Lemma drop_duplicates_last_sorted (df : list Row) :
  row_sorted df → row_sorted (drop_duplicates_last df).
Proof.
  unfold row_sorted.
  induction df as [|r rest IH]; simpl; [done|].
  intros [Hrest Hr]%StronglySorted_inv.
  destruct (existsb (same_key r) rest); [by apply IH|].
  constructor; [by apply IH|].
  apply Forall_forall. intros s Hs%elem_of_drop_duplicates_last.
  by eapply Forall_forall in Hr.
Qed.

Lemma row_le_set_level (lvl : nat) (r s : Row) :
  row_le r s = true → row_le (set_level lvl r) (set_level lvl s) = true.
Proof.
  rewrite !row_le_true_iff. simpl. intuition auto with lia.
Qed.

Lemma set_level_sorted (lvl : nat) (df : list Row) :
  row_sorted df → row_sorted (set_level lvl <$> df).
Proof.
  unfold row_sorted.
  induction df as [|r rest IH]; [done|].
  intros [Hrest Hr]%StronglySorted_inv. rewrite fmap_cons.
  constructor; [by apply IH|].
  apply Forall_fmap. eapply Forall_impl; [exact Hr|].
  intros s Hs. by apply row_le_set_level.
Qed.

Lemma drop_duplicates_last_set_level (lvl : nat) (df : list Row) :
  drop_duplicates_last (set_level lvl <$> drop_duplicates_last df) =
  set_level lvl <$> drop_duplicates_last df.
Proof.
  induction df as [|r rest IH]; simpl; [done|].
  destruct (existsb (same_key r) rest) eqn:Hdup; [done|].
  rewrite fmap_cons. simpl. rewrite IH.
  assert (existsb (same_key (set_level lvl r))
            (set_level lvl <$> drop_duplicates_last rest) = false) as ->; [|done].
  apply not_true_is_false. intros (s' & Hs' & Hkey)%existsb_exists.
  apply list_elem_of_In, list_elem_of_fmap in Hs' as (s & -> & Hs).
  apply elem_of_drop_duplicates_last in Hs.
  pose proof (existsb_false_elem_of _ _ _ Hdup Hs) as Hno.
  unfold same_key in *. simpl in Hkey. congruence.
Qed.

(** Merging is idempotent as an operation: a merged dataset, fed back as
    the only level, is returned as it is. *)
Lemma merge_levels_fixed_point (lvl : nat) (all_levels_dfs : list (list Row)) :
  merge_levels [as_level lvl (merge_levels all_levels_dfs)] =
  merge_levels all_levels_dfs.
Proof.
  destruct all_levels_dfs as [|df dfs]; [done|].
  unfold merge_levels at 2.
  set (final_df := drop_duplicates_last _).
  unfold merge_levels. simpl concat. rewrite app_nil_r.
  rewrite as_level_to_entry.
  rewrite sort_values_of_sorted.
  - subst final_df. by rewrite drop_duplicates_last_set_level, to_entry_set_level.
  - apply set_level_sorted, drop_duplicates_last_sorted, sort_values_sorted.
Qed.

(** *** Level records: truncation to complete blocks *)

Lemma length_np_repeat {A : Type} (a : list A) (repeats : Z) :
  length (np_repeat a repeats) = (length a * Z.to_nat repeats)%nat.
Proof.
  unfold np_repeat. induction a as [|y a IH]; [done|].
  rewrite bind_cons, length_app, length_replicate, IH. simpl. lia.
Qed.

Lemma lookup_np_repeat {A : Type} (a : list A) (repeats : Z) (k : nat) :
  0 < repeats →
  np_repeat a repeats !! k = a !! (k / Z.to_nat repeats)%nat.
Proof.
  intros Hpos. unfold np_repeat.
  set (m := Z.to_nat repeats). assert (0 < m)%nat as Hm by lia.
  revert k. induction a as [|y a IH]; intros k; [done|].
  rewrite bind_cons.
  destruct (decide (k < m)%nat) as [Hk|Hk].
  - rewrite lookup_app_l by by rewrite length_replicate.
    rewrite lookup_replicate_2 by done.
    by rewrite Nat.div_small.
  - rewrite lookup_app_r by (rewrite length_replicate; lia).
    rewrite length_replicate, IH.
    replace k with ((k - m) + 1 * m)%nat at 2 by lia.
    rewrite Nat.div_add by lia.
    by rewrite Nat.add_1_r.
Qed.

Lemma level_frame_small_block (self : NRDataReader) (i : nat)
    (filepath : list string) (block_size : Z) :
  block_size - 2 ≤ 0 → level_frame self i filepath block_size = Ok None.
Proof.
  intros Hrows. unfold level_frame.
  by rewrite (proj2 (Z.leb_le _ _) Hrows).
Qed.

Lemma level_frame_complete (self : NRDataReader) (i : nat)
    (filepath : list string) (block_size : Z)
    (body : list (float64 * float64)) (n : Z) :
  0 < block_size - 2 →
  read_csv filepath = Ok body →
  n = Z.of_nat (length body) / (block_size - 2) →
  0 < n →
  n ≤ Z.of_nat (length (times self)) →
  level_frame self i filepath block_size =
  Ok (Some (zip_with (λ xv t, mkRow xv.1 xv.2 t i)
              (take (Z.to_nat (n * (block_size - 2))) body)
              (np_repeat (take (Z.to_nat n) (times self)) (block_size - 2)))).
Proof.
  intros Hrows Hread Hn Hpos Htimes. unfold level_frame.
  rewrite (proj2 (Z.leb_gt _ _) Hrows), Hread. simpl. rewrite <-Hn.
  rewrite (proj2 (Z.eqb_neq _ _)) by lia.
  unfold slice_to.
  rewrite (proj2 (Z.ltb_ge (n * (block_size - 2)) 0)) by nia.
  rewrite (proj2 (Z.ltb_ge n 0)) by lia.
  rewrite length_np_repeat, !length_take.
  pose proof (Z.mul_div_le (Z.of_nat (length body)) (block_size - 2) Hrows) as Hle.
  rewrite (proj2 (Nat.eqb_eq _ _)); [done|].
  rewrite Z2Nat.inj_mul by lia. nia.
Qed.

(** With fewer reference times than complete blocks in the body, the
    assignment of the time column raises. *)
Lemma level_frame_mismatch (self : NRDataReader) (i : nat)
    (filepath : list string) (block_size : Z)
    (body : list (float64 * float64)) :
  0 < block_size - 2 →
  read_csv filepath = Ok body →
  Z.of_nat (length (times self)) < Z.of_nat (length body) / (block_size - 2) →
  level_frame self i filepath block_size = Raise ValueError.
Proof.
  intros Hrows Hread Hshort. unfold level_frame.
  rewrite (proj2 (Z.leb_gt _ _) Hrows), Hread. simpl.
  set (n := Z.of_nat (length body) / (block_size - 2)) in *.
  rewrite (proj2 (Z.eqb_neq _ _)) by lia.
  unfold slice_to.
  rewrite (proj2 (Z.ltb_ge (n * (block_size - 2)) 0)) by nia.
  rewrite (proj2 (Z.ltb_ge n 0)) by lia.
  rewrite length_np_repeat, !length_take.
  pose proof (Z.mul_div_le (Z.of_nat (length body)) (block_size - 2) Hrows) as Hle.
  rewrite (proj2 (Nat.eqb_neq _ _)); [done|].
  fold n in Hle. rewrite Z2Nat.inj_mul by lia. nia.
Qed.

(** C6 (as amended). Rows per block are [block_size - 2]; when that is not
    positive the level contributes nothing. Otherwise, for a parsed body of
    [rows * n + r] rows with [0 <= r < rows] and at least [n] reference
    times, exactly the first [n * rows] rows are emitted, row [k] with the
    time of block [k / rows]; the trailing [r] rows are dropped. *)
Theorem level_frame_truncation (self : NRDataReader) (i : nat)
    (filepath : list string) (block_size : Z) :
  (block_size - 2 ≤ 0 → level_frame self i filepath block_size = Ok None) ∧
  (∀ (body : list (float64 * float64)) (n r : Z),
     0 < block_size - 2 →
     read_csv filepath = Ok body →
     Z.of_nat (length body) = (block_size - 2) * n + r →
     0 ≤ r < block_size - 2 →
     n ≤ Z.of_nat (length (times self)) →
     ∃ frame : option (list Row),
       level_frame self i filepath block_size = Ok frame ∧
       Z.of_nat (length (emitted frame)) = n * (block_size - 2) ∧
       ∀ (k : nat) (x v : float64),
         Z.of_nat k < n * (block_size - 2) →
         body !! k = Some (x, v) →
         ∃ t : float64,
           times self !! Z.to_nat (Z.of_nat k / (block_size - 2)) = Some t ∧
           emitted frame !! k = Some (mkRow x v t i)).
Proof.
  split; [apply level_frame_small_block|].
  intros body n r Hrows Hread Hlen Hr Htimes.
  set (rows := block_size - 2) in *.
  assert (n = Z.of_nat (length body) / rows) as Hn.
  { apply (Z.div_unique _ _ n r); [lia | done]. }
  assert (0 ≤ n) as Hn0 by nia.
  destruct (decide (n = 0)) as [->|Hnz].
  - exists None. split; [|split; [done | intros; lia]].
    unfold level_frame. fold rows.
    rewrite (proj2 (Z.leb_gt _ _) Hrows), Hread. simpl.
    by rewrite <-Hn.
  - eexists. split; [by apply (level_frame_complete _ _ _ _ body n); try lia|].
    simpl emitted. split.
    + rewrite length_zip_with, length_np_repeat, !length_take.
      rewrite Nat2Z.inj_min, Nat2Z.inj_mul, Nat2Z.inj_min, !Z2Nat.id by nia. nia.
    + intros k x v Hk Hbody.
      assert (0 ≤ Z.of_nat k / rows < n) as Hblock.
      { split; [apply Z.div_pos; lia|]. apply Z.div_lt_upper_bound; lia. }
      destruct (lookup_lt_is_Some_2 (times self)
                  (Z.to_nat (Z.of_nat k / rows))) as [t Ht]; [lia|].
      exists t. split; [done|].
      apply lookup_zip_with_Some. exists (x, v), t. split; [done|]. split.
      * rewrite lookup_take_lt by lia. done.
      * rewrite lookup_np_repeat by done.
        rewrite lookup_take_lt.
        -- rewrite <-Ht. f_equal. fold rows.
           apply Nat2Z.inj. rewrite Nat2Z.inj_div, !Z2Nat.id by lia. done.
        -- fold rows. apply Nat2Z.inj_lt.
           rewrite Nat2Z.inj_div, !Z2Nat.id by lia. lia.
Qed.

(** *** The whole method, and the store *)

Lemma process_levels_raise (self : NRDataReader) (i : nat)
    (filepath : list string) (rest : list (list string))
    (lines_per_block : list Z) (block_size : Z)
    (all_levels_dfs : list (list Row)) (e : exn) :
  lines_per_block !! i = Some block_size →
  level_frame self i filepath block_size = Raise e →
  process_levels self i (filepath :: rest) lines_per_block all_levels_dfs = Raise e.
Proof. intros Hsize Hframe. simpl. by rewrite Hsize; simpl; rewrite Hframe. Qed.

(** A first level file with more complete blocks than there are reference
    times makes the whole method raise; no later file is looked at. *)
Lemma process_variable_mismatch (self : NRDataReader) (variable_name : string)
    (filepath : list string) (rest : list (list string))
    (lines_per_block : list Z) (block_size : Z)
    (body : list (float64 * float64)) :
  lines_per_block !! 0%nat = Some block_size →
  0 < block_size - 2 →
  read_csv filepath = Ok body →
  Z.of_nat (length (times self)) < Z.of_nat (length body) / (block_size - 2) →
  (_process_variable self variable_name (filepath :: rest) lines_per_block).1 =
  Raise ValueError.
Proof.
  intros Hsize Hrows Hread Hshort. unfold _process_variable. cbn [fst].
  erewrite process_levels_raise; [done | done |].
  by eapply level_frame_mismatch.
Qed.

Lemma process_variable_unique_keys (self : NRDataReader)
    (variable_name : string) (file_paths : list (list string))
    (lines_per_block : list Z) (df : Dataset) :
  (_process_variable self variable_name file_paths lines_per_block).1 = Ok df →
  unique_keys df.
Proof.
  unfold _process_variable. cbn [fst].
  destruct (process_levels self 0 file_paths lines_per_block [])
    as [all_levels_dfs|e]; [|done].
  intros [= <-]. unfold merge_levels.
  destruct all_levels_dfs as [|first rest]; [|apply to_entry_unique_keys].
  intros i j e1 e2 He1. by destruct i.
Qed.

(** C8. Processing the same variable twice in a row gives the same result
    both times and leaves the reader as it was; and the merge is idempotent
    as an operation: a dataset it produced, merged again as the rows of any
    one level, comes back unchanged. *)
Theorem process_variable_idempotent (self : NRDataReader)
    (variable_name : string) (file_paths : list (list string))
    (lines_per_block : list Z) :
  let first := _process_variable self variable_name file_paths lines_per_block in
  let second := _process_variable first.2 variable_name file_paths lines_per_block in
  second = first ∧ first.2 = self ∧
  ∀ (merged : Dataset) (lvl : nat),
    first.1 = Ok merged → merge_levels [as_level lvl merged] = merged.
Proof.
  cbn zeta. split; [done|]. split; [done|].
  intros merged lvl. unfold _process_variable. cbn [fst].
  destruct (process_levels self 0 file_paths lines_per_block [])
    as [all_levels_dfs|e]; [|done].
  intros [= <-]. apply merge_levels_fixed_point.
Qed.

(** C9. Looking up a name the store does not hold returns the empty
    dataset, raises nothing, and leaves the reader unchanged. *)
Theorem get_variable_unknown (self : NRDataReader) (variable_name : string) :
  data self !! variable_name = None →
  get_variable self variable_name = ([], self).
Proof. intros Hnone. unfold get_variable, Dataset in *. by rewrite Hnone. Qed.

(** *** The merged dataset as a whole *)

Lemma elem_of_concat (r : Row) (dfs : list (list Row)) :
  r ∈ concat dfs ↔ ∃ df, r ∈ df ∧ df ∈ dfs.
Proof.
  induction dfs as [|first rest IH]; simpl.
  - split; [by intros ?%elem_of_nil | by intros (df & _ & ?%elem_of_nil)].
  - rewrite elem_of_app, IH. split.
    + intros [?|(df & ? & ?)]; [exists first | exists df]; split; try done.
      * by left.
      * by right.
    + intros (df & Hr & [->|?]%elem_of_cons); [by left | right; eauto].
Qed.

Lemma sorted_lookup (df : list Row) (i j : nat) (r s : Row) :
  row_sorted df → (i < j)%nat →
  df !! i = Some r → df !! j = Some s → row_le r s = true.
Proof.
  unfold row_sorted. intros Hsorted. revert i j.
  induction Hsorted as [|first rest _ IH Hfirst]; intros i j Hij; [done|].
  destruct j as [|j]; [lia|]. destruct i as [|i]; simpl.
  - intros [= <-] Hs. eapply Forall_forall in Hfirst; [done|].
    by eapply list_elem_of_lookup_2.
  - apply IH. lia.
Qed.

(** X6. The merged dataset is in strictly ascending order of its index:
    by time, and by position within one time. *)
Theorem merge_levels_ascending (all_levels_dfs : list (list Row))
    (i j : nat) (e1 e2 : float64 * float64 * float64) :
  (i < j)%nat →
  merge_levels all_levels_dfs !! i = Some e1 →
  merge_levels all_levels_dfs !! j = Some e2 →
  entry_lt e1 e2 = true.
Proof.
  intros Hij. unfold merge_levels.
  destruct all_levels_dfs as [|df dfs]; [done|].
  rewrite !list_lookup_fmap_Some.
  intros (r & -> & Hr) (s & -> & Hs).
  assert (row_le r s = true) as Hle.
  { eapply sorted_lookup; [|done..].
    apply drop_duplicates_last_sorted, sort_values_sorted. }
  assert (same_key r s = false) as Hkey.
  { apply not_true_is_false. intros Hkey.
    pose proof (drop_duplicates_last_unique _ _ _ _ _ Hr Hs Hkey). lia. }
  unfold entry_lt, to_entry. cbn [fst snd].
  apply row_le_true_iff in Hle. unfold same_key in Hkey.
  destruct Hle as [->|[Ht [Hx|[Hx _]]]]; [done| |].
  - rewrite Ht, Hx. apply orb_true_r.
  - by rewrite Ht, Hx in Hkey.
Qed.

Lemma best_at_highest (t x : float64) (df : list Row) (r : Row) :
  r ∈ df → has_key t x r = true →
  ∃ c, best_at t x df = Some c ∧ (level r ≤ level c)%nat.
Proof.
  intros Hin Hkey. induction df as [|first rest IH]; [by apply elem_of_nil in Hin|].
  cbn [best_at]. unfold prefer.
  apply elem_of_cons in Hin as [<-|Hin].
  - rewrite Hkey. destruct (best_at t x rest) as [c|]; [|by exists r].
    simpl. destruct (level c <? level r)%nat eqn:Hlt.
    + by exists r.
    + exists c. split; [done|]. by apply Nat.ltb_ge in Hlt.
  - destruct (IH Hin) as (c & -> & Hle).
    destruct (has_key t x first && (level c <? level first)%nat) eqn:Hfirst.
    + exists first. split; [done|].
      apply andb_prop in Hfirst as [_ Hlt%Nat.ltb_lt]. lia.
    + by exists c.
Qed.

(** X7. No key is lost in the merge: for every row that enters it, the
    merged dataset has an entry at the row's key, and its value is that of
    a row at the same key whose level is at least as high. *)
Theorem merge_levels_keeps_keys (all_levels_dfs : list (list Row)) (r : Row) :
  r ∈ concat all_levels_dfs →
  ∃ s : Row,
    s ∈ concat all_levels_dfs ∧ same_key s r = true ∧
    (level r ≤ level s)%nat ∧
    loc (merge_levels all_levels_dfs) (time r) (x_coordinate r) = Some (value s).
Proof.
  intros Hin.
  destruct (best_at_highest (time r) (x_coordinate r) _ r Hin (has_key_self r))
    as (s & Hbest & Hle).
  exists s. rewrite loc_merge_levels, Hbest.
  apply best_at_Some in Hbest as [Hs Hkey].
  repeat split; done.
Qed.

Lemma insert_row_Permutation (r : Row) (df : list Row) :
  insert_row r df ≡ₚ r :: df.
Proof.
  induction df as [|s rest IH]; simpl; [done|].
  destruct (row_le r s); [done|].
  by rewrite IH, Permutation_swap.
Qed.

Lemma sort_values_Permutation (df : list Row) : sort_values df ≡ₚ df.
Proof.
  induction df as [|r rest IH]; simpl; [done|].
  by rewrite insert_row_Permutation, IH.
Qed.

Lemma existsb_insert_row (p : Row → bool) (r : Row) (df : list Row) :
  existsb p (insert_row r df) = p r || existsb p df.
Proof.
  induction df as [|s rest IH]; simpl; [done|].
  destruct (row_le r s); simpl; [done|].
  rewrite IH. by destruct (p r), (p s).
Qed.

Lemma distinct_keys_insert_row (r : Row) (df : list Row) :
  distinct_keys (insert_row r df) = distinct_keys (r :: df).
Proof.
  induction df as [|s rest IH]; [done|].
  cbn [insert_row]. destruct (row_le r s); [done|].
  cbn [distinct_keys existsb] in *.
  rewrite existsb_insert_row, IH, (same_key_sym s r).
  destruct (same_key r s), (existsb (same_key r) rest),
    (existsb (same_key s) rest), (distinct_keys rest); done.
Qed.

Lemma distinct_keys_sort_values (df : list Row) :
  distinct_keys (sort_values df) = distinct_keys df.
Proof.
  induction df as [|r rest IH]; [done|].
  cbn [sort_values]. rewrite distinct_keys_insert_row.
  cbn [distinct_keys]. rewrite IH. f_equal. f_equal.
  clear IH. induction rest as [|s rest IH]; [done|].
  cbn [sort_values]. rewrite existsb_insert_row. simpl. by rewrite IH.
Qed.

Lemma drop_duplicates_last_distinct (df : list Row) :
  distinct_keys df = true → drop_duplicates_last df = df.
Proof.
  induction df as [|r rest IH]; [done|].
  cbn [distinct_keys drop_duplicates_last].
  intros [Hr Hrest]%andb_prop. apply negb_true_iff in Hr.
  by rewrite Hr, IH.
Qed.

(** X8. When no two rows entering the merge share a key, the merge drops
    nothing and changes nothing: the merged dataset holds exactly the
    entries of those rows, rearranged. *)
Theorem merge_levels_distinct (all_levels_dfs : list (list Row)) :
  distinct_keys (concat all_levels_dfs) = true →
  merge_levels all_levels_dfs ≡ₚ to_entry <$> concat all_levels_dfs.
Proof.
  intros Hdistinct. unfold merge_levels.
  destruct all_levels_dfs as [|df dfs]; [done|].
  rewrite drop_duplicates_last_distinct
    by by rewrite distinct_keys_sort_values.
  by rewrite sort_values_Permutation.
Qed.

(** *** Where the entries come from *)

Lemma level_frame_rows (self : NRDataReader) (i : nat)
    (filepath : list string) (block_size : Z) (df : list Row) (r : Row) :
  level_frame self i filepath block_size = Ok (Some df) →
  r ∈ df →
  level r = i ∧ time r ∈ times self ∧
  ∃ body, read_csv filepath = Ok body ∧ (x_coordinate r, value r) ∈ body.
Proof.
  unfold level_frame.
  destruct (block_size - 2 <=? 0); [done|].
  destruct (read_csv filepath) as [body|e]; [|done]. simpl.
  destruct (_ =? 0); [done|].
  destruct (_ =? _)%nat; [|done].
  intros [= <-] (xv & t & -> & Hxv & Ht)%elem_of_zip_with. simpl.
  split; [done|]. split.
  - unfold np_repeat in Ht.
    apply list_elem_of_bind in Ht as (t' & ->%elem_of_replicate_inv & Ht').
    unfold slice_to in Ht'.
    destruct (_ <? 0); by apply subseteq_take in Ht'.
  - exists body. split; [done|]. destruct xv as [x v]. simpl.
    unfold slice_to in Hxv.
    destruct (_ <? 0); by apply subseteq_take in Hxv.
Qed.

Lemma process_levels_rows (self : NRDataReader) (files : list (list string))
    (i : nat) (rest : list (list string)) (lines_per_block : list Z)
    (all_levels_dfs frames : list (list Row)) (keep : Row → Prop) :
  (∀ filepath j block_size df r,
     filepath ∈ rest →
     level_frame self j filepath block_size = Ok (Some df) → r ∈ df → keep r) →
  process_levels self i rest lines_per_block all_levels_dfs = Ok frames →
  (∀ r, r ∈ concat all_levels_dfs → keep r) →
  ∀ r, r ∈ concat frames → keep r.
Proof.
  revert i all_levels_dfs.
  induction rest as [|filepath rest IH]; intros i acc Hframe; simpl.
  - by intros [= <-].
  - destruct (lines_per_block !! i) as [block_size|]; [|done]. simpl.
    destruct (level_frame self i filepath block_size) as [frame|e] eqn:Hlevel;
      [|done]. simpl.
    intros Hrest Hacc. eapply IH; [|exact Hrest|].
    + intros f j b df r Hf. apply Hframe. by right.
    + destruct frame as [df|]; [|exact Hacc].
      intros r. rewrite concat_app, elem_of_app. simpl. rewrite app_nil_r.
      intros [?|Hr]; [by apply Hacc|].
      eapply Hframe; [by left | exact Hlevel | exact Hr].
Qed.

(** X9. Every entry of a variable's dataset comes from the files it was
    given: its time is one of the reference times, and its position and
    value form a row that [read_csv] read from one of the files. *)
Theorem process_variable_provenance (self : NRDataReader)
    (variable_name : string) (file_paths : list (list string))
    (lines_per_block : list Z) (df : Dataset) (t x v : float64) :
  (_process_variable self variable_name file_paths lines_per_block).1 = Ok df →
  (t, x, v) ∈ df →
  t ∈ times self ∧
  ∃ filepath body,
    filepath ∈ file_paths ∧ read_csv filepath = Ok body ∧ (x, v) ∈ body.
Proof.
  unfold _process_variable. cbn [fst].
  destruct (process_levels self 0 file_paths lines_per_block [])
    as [frames|e] eqn:Hframes; [|done].
  intros [= <-] Hentry.
  assert (∃ r, r ∈ concat frames ∧ to_entry r = (t, x, v)) as (r & Hr & Heq).
  { unfold merge_levels in Hentry.
    destruct frames as [|first more]; [by apply elem_of_nil in Hentry|].
    apply list_elem_of_fmap in Hentry as (r & -> & Hr).
    apply elem_of_drop_duplicates_last in Hr.
    apply (proj1 (elem_of_sort_values _ _)) in Hr. by exists r. }
  injection Heq as <- <- <-. clear Hentry.
  revert r Hr.
  eapply (process_levels_rows self file_paths 0 file_paths lines_per_block []
            frames
            (λ r, time r ∈ times self ∧
                  ∃ filepath body,
                    filepath ∈ file_paths ∧ read_csv filepath = Ok body ∧
                    (x_coordinate r, value r) ∈ body));
    [|exact Hframes|by intros r ?%elem_of_nil].
  intros filepath j block_size df r Hfile Hlevel Hr.
  destruct (level_frame_rows _ _ _ _ _ _ Hlevel Hr) as (_ & Ht & body & Hb & Hxv).
  split; [done|]. by exists filepath, body.
Qed.

(** *** Files without blocks *)

Lemma process_levels_skipped (self : NRDataReader) (i : nat)
    (rest : list (list string)) (lines_per_block : list Z)
    (all_levels_dfs : list (list Row)) :
  (∀ (k : nat) filepath, rest !! k = Some filepath →
     ∃ block_size, lines_per_block !! (i + k)%nat = Some block_size ∧
                   block_size ≤ 2) →
  process_levels self i rest lines_per_block all_levels_dfs = Ok all_levels_dfs.
Proof.
  revert i. induction rest as [|filepath rest IH]; intros i Hsizes; simpl; [done|].
  destruct (Hsizes 0%nat filepath eq_refl) as (block_size & Hsize & Hsmall).
  rewrite Nat.add_0_r in Hsize. rewrite Hsize. simpl.
  rewrite level_frame_small_block by lia. simpl.
  apply IH. intros k f Hf.
  replace (S i + k)%nat with (i + S k)%nat by lia.
  exact (Hsizes (S k) f Hf).
Qed.

(** X10. A variable none of whose files has a detected block size of at
    least 3 lines (in particular block size 0: fewer than two header lines)
    gets the empty dataset: nothing is raised, and its files are not read
    as tables at all. *)
Theorem process_variable_no_blocks (self : NRDataReader)
    (variable_name : string) (file_paths : list (list string)) :
  Forall (λ filepath, _get_lines_per_block filepath ≤ 2) file_paths →
  _process_variable self variable_name file_paths
    (_get_lines_per_block <$> file_paths) = (Ok [], self).
Proof.
  intros Hsmall. unfold _process_variable.
  rewrite process_levels_skipped; [done|].
  intros k filepath Hk. exists (_get_lines_per_block filepath).
  split; [by apply list_lookup_fmap_Some_2|].
  eapply Forall_forall in Hsmall; [done|]. by eapply list_elem_of_lookup_2.
Qed.

(** *** [load]: the time axis and the store *)

Lemma parse_times_from_file_returns (lines : list string) (block_size : Z) :
  ∃ reference : list float64,
    _parse_times_from_file lines block_size = Ok reference.
Proof.
  destruct (decide (block_size = 0)) as [->|Hb]; [by eexists|].
  eexists. by apply parse_times_from_file_nonzero.
Qed.

Lemma load_variables_times (self : NRDataReader)
    (variable_paths : list (string * list (list string))) :
  times (load_variables self variable_paths).2 = times self.
Proof.
  revert self. induction variable_paths as [|[var file_paths] rest IH];
    intros self; [done|].
  cbn [load_variables]. unfold _process_variable.
  destruct (_ ≫= _) as [df|e]; [|done].
  by rewrite IH.
Qed.

(** X11. Whatever else [load] does, and even when it raises half-way, the
    time axis of the reader afterwards is the one extracted from the first
    file of the first variable; the times it held before are gone. *)
Theorem load_sets_times (self : NRDataReader) (ref_var : string)
    (first_path : list string) (ref_paths : list (list string))
    (others : list (string * list (list string))) :
  _parse_times_from_file first_path (_get_lines_per_block first_path) =
  Ok (times (load self ((ref_var, first_path :: ref_paths) :: others)).2).
Proof.
  unfold load. cbn [fmap list_fmap].
  destruct (parse_times_from_file_returns first_path
              (_get_lines_per_block first_path)) as [reference Href].
  rewrite Href. by rewrite load_variables_times.
Qed.

Lemma level_frame_times_only (self other : NRDataReader) (i : nat)
    (filepath : list string) (block_size : Z) :
  times self = times other →
  level_frame self i filepath block_size =
  level_frame other i filepath block_size.
Proof. intros Htimes. unfold level_frame. by rewrite Htimes. Qed.

Lemma process_levels_times_only (self other : NRDataReader) (i : nat)
    (file_paths : list (list string)) (lines_per_block : list Z)
    (all_levels_dfs : list (list Row)) :
  times self = times other →
  process_levels self i file_paths lines_per_block all_levels_dfs =
  process_levels other i file_paths lines_per_block all_levels_dfs.
Proof.
  intros Htimes. revert i all_levels_dfs.
  induction file_paths as [|filepath rest IH]; intros i acc; simpl; [done|].
  destruct (lines_per_block !! i) as [block_size|]; [|done]. simpl.
  rewrite (level_frame_times_only self other) by done.
  destruct (level_frame other i filepath block_size) as [frame|e]; [|done].
  simpl. apply IH.
Qed.

Lemma process_variable_times_only (self other : NRDataReader)
    (variable_name : string) (file_paths : list (list string))
    (lines_per_block : list Z) :
  times self = times other →
  (_process_variable self variable_name file_paths lines_per_block).1 =
  (_process_variable other variable_name file_paths lines_per_block).1.
Proof.
  intros Htimes. unfold _process_variable. cbn [fst].
  by rewrite (process_levels_times_only self other).
Qed.

Lemma load_variables_others (self : NRDataReader)
    (variable_paths : list (string * list (list string))) (name : string) :
  name ∉ variable_paths.*1 →
  data (load_variables self variable_paths).2 !! name = data self !! name.
Proof.
  revert self. induction variable_paths as [|[var file_paths] rest IH];
    intros self Hname; [done|].
  rewrite fmap_cons, not_elem_of_cons in Hname. destruct Hname as [Hvar Hrest].
  cbn [load_variables]. unfold _process_variable.
  destruct (_ ≫= _) as [df|e]; [|done].
  rewrite IH by done. cbn [data]. by apply lookup_insert_ne.
Qed.

Lemma load_variables_stored (self after : NRDataReader)
    (variable_paths : list (string * list (list string)))
    (var : string) (file_paths : list (list string)) :
  load_variables self variable_paths = (Ok (), after) →
  NoDup variable_paths.*1 →
  (var, file_paths) ∈ variable_paths →
  ∃ df : Dataset,
    data after !! var = Some df ∧
    (_process_variable self var file_paths
       (_get_lines_per_block <$> file_paths)).1 = Ok df.
Proof.
  revert self. induction variable_paths as [|[name paths] rest IH];
    intros self Hload Hnodup Hin; [by apply elem_of_nil in Hin|].
  rewrite fmap_cons in Hnodup. apply NoDup_cons in Hnodup as [Hname Hnodup].
  cbn [load_variables] in Hload.
  destruct (_process_variable self name paths (_get_lines_per_block <$> paths))
    as [[df|e] self'] eqn:Hprocess; [|done].
  assert (self' = self) as -> by (by injection Hprocess).
  apply elem_of_cons in Hin as [[= -> ->]|Hin].
  - exists df. split; [|by rewrite Hprocess].
    pose proof (load_variables_others
                  (mkReader (times self) (<[name:=df]> (data self)))
                  rest name Hname) as Hkept.
    rewrite Hload in Hkept. cbn [snd data] in Hkept.
    by rewrite Hkept, lookup_insert_eq.
  - destruct (IH _ Hload Hnodup Hin) as (df' & Hstored & Hdf').
    exists df'. split; [done|]. rewrite <-Hdf'.
    by apply process_variable_times_only.
Qed.

(** X12. After a [load] that returned normally, every discovered variable
    is in the store, and what [get_variable] finds there is the dataset
    that processing the variable's files against the new time axis gives
    (the variables having distinct names, as the keys of a dictionary do). *)
Theorem load_stores (self after : NRDataReader)
    (variable_paths : list (string * list (list string)))
    (var : string) (file_paths : list (list string)) :
  load self variable_paths = (Ok (), after) →
  NoDup variable_paths.*1 →
  (var, file_paths) ∈ variable_paths →
  ∃ df : Dataset,
    data after !! var = Some df ∧
    (get_variable after var).1 = df ∧
    (_process_variable after var file_paths
       (_get_lines_per_block <$> file_paths)).1 = Ok df.
Proof.
  intros Hload Hnodup Hin. unfold load in Hload.
  destruct variable_paths as [|[ref_var ref_paths] others] eqn:Hpaths;
    [by apply elem_of_nil in Hin|].
  rewrite <-Hpaths in *.
  destruct ref_paths as [|first_path ref_paths]; [done|].
  cbn [fmap list_fmap] in Hload.
  destruct (_parse_times_from_file first_path _) as [reference|e]; [|done].
  destruct (load_variables_stored _ _ _ _ _ Hload Hnodup Hin)
    as (df & Hstored & Hdf).
  exists df. split; [done|]. split.
  - unfold get_variable, Dataset in *. cbn [fst]. by rewrite Hstored.
  - rewrite <-Hdf. apply process_variable_times_only.
    pose proof (load_variables_times
                  (mkReader reference (data self)) variable_paths) as Htimes.
    by rewrite Hload in Htimes.
Qed.

(** X13. [load] never resets the store: whatever its outcome, a name that
    is not among the discovered variables keeps the dataset (or the
    absence of one) it had before. *)
Theorem load_keeps_others (self : NRDataReader)
    (variable_paths : list (string * list (list string))) (name : string) :
  name ∉ variable_paths.*1 →
  data (load self variable_paths).2 !! name = data self !! name.
Proof.
  intros Hname. unfold load.
  destruct variable_paths as [|[ref_var ref_paths] others] eqn:Hpaths; [done|].
  rewrite <-Hpaths in *.
  destruct ref_paths as [|first_path ref_paths]; [done|].
  cbn [fmap list_fmap].
  destruct (_parse_times_from_file first_path _) as [reference|e]; [|done].
  by rewrite load_variables_others.
Qed.

Lemma load_variables_app (self : NRDataReader)
    (earlier later : list (string * list (list string))) :
  load_variables self (earlier ++ later) =
  match load_variables self earlier with
  | (Ok _, mid) => load_variables mid later
  | (Raise e, mid) => (Raise e, mid)
  end.
Proof.
  revert self. induction earlier as [|[var file_paths] earlier IH];
    intros self; [done|].
  cbn [app load_variables].
  destruct (_process_variable self var file_paths _) as [[df|e] after];
    [apply IH | done].
Qed.

(** X14. The loop of [load] is not atomic: when processing a variable
    raises, the exception leaves the loop with the reader as it was after
    the variables before it, which stay stored; no later variable is
    processed. *)
Theorem load_variables_failure (self mid : NRDataReader)
    (earlier later : list (string * list (list string)))
    (var : string) (file_paths : list (list string)) (e : exn) :
  load_variables self earlier = (Ok (), mid) →
  (_process_variable mid var file_paths
     (_get_lines_per_block <$> file_paths)).1 = Raise e →
  load_variables self (earlier ++ (var, file_paths) :: later) = (Raise e, mid).
Proof.
  intros Hearlier Hraise. rewrite load_variables_app, Hearlier.
  cbn [load_variables].
  destruct (_process_variable mid var file_paths _) as [result after] eqn:Hvar.
  assert (after = mid) as -> by (by injection Hvar).
  cbn [fst] in Hraise. by rewrite Hraise.
Qed.

End MergeLaws.

(** ** The table format *)

Section ReadCsvLaws.

Context {float64 : Type} `{!CsvNumber float64}.

Lemma csv_fields_blank (s : string) :
  every csv_space s = true → csv_fields s = [].
Proof.
  induction s as [|c s IH]; simpl; [done|].
  intros [-> Hs]%andb_prop. by apply IH.
Qed.

Lemma csv_fields_lead (lead s : string) :
  every csv_space lead = true → csv_fields (lead +:+ s) = csv_fields s.
Proof.
  induction lead as [|c lead IH]; simpl; [done|].
  intros [-> Hs]%andb_prop. by apply IH.
Qed.

Lemma is_field_inv (c : ascii) (s : string) :
  is_field (String c s) →
  csv_space c = false ∧ Ascii.eqb c dquote = false ∧
  (s = EmptyString ∨ is_field s).
Proof.
  intros [_ [[Hc Hq%negb_true_iff]%andb_prop Hs]%andb_prop].
  apply negb_true_iff in Hc. repeat split; try done.
  destruct s; [by left | right]. by split.
Qed.

Lemma is_field_head (s : string) :
  is_field s → ∃ c s', s = String c s' ∧ csv_space c = false.
Proof.
  destruct s as [|c s]; [by intros [? _]|].
  intros (? & _ & _)%is_field_inv. eauto.
Qed.

(** A field followed by nothing, or by whitespace, is the first field. *)
Lemma csv_fields_field (field rest : string) :
  is_field field →
  (rest = EmptyString ∨ ∃ c rest', rest = String c rest' ∧ csv_space c = true) →
  csv_fields (field +:+ rest) = field :: csv_fields rest.
Proof.
  intros Hfield Hrest.
  induction field as [|c field IH]; [by destruct Hfield|].
  apply is_field_inv in Hfield as (Hc & _ & Hfield).
  change (String c field +:+ rest) with (String c (field +:+ rest)).
  cbn [csv_fields]. rewrite Hc.
  destruct Hfield as [->|Hfield].
  - change (EmptyString +:+ rest) with rest.
    destruct Hrest as [->|(c' & rest' & -> & Hc')]; [done|].
    by rewrite Hc'.
  - destruct (is_field_head _ Hfield) as (c' & field' & -> & Hc').
    change (String c' field' +:+ rest) with (String c' (field' +:+ rest)).
    cbv iota beta. rewrite Hc'.
    change (String c' (field' +:+ rest)) with (String c' field' +:+ rest).
    by rewrite IH.
Qed.

Lemma is_field_quote_free (s : string) : is_field s → quote_free s = true.
Proof.
  intros [_ Hs]. unfold quote_free.
  induction s as [|c s IH]; simpl in *; [done|].
  apply andb_prop in Hs as [[_ ->]%andb_prop Hs]. by apply IH.
Qed.

Lemma space_head (s : string) :
  s ≠ EmptyString → every csv_space s = true →
  ∃ c s', s = String c s' ∧ csv_space c = true.
Proof.
  destruct s as [|c s]; [done|]. simpl. intros _ [??]%andb_prop. eauto.
Qed.

Lemma read_csv_line_table_line (line : string) (outcome : option (float64 * float64)) :
  table_line line outcome → read_csv_line line = Some outcome.
Proof.
  intros [rest|blank Hblank|lead first gap second trail x v
            Hlead Hfirst Hgap Hgaps Hsecond Htrail Hx Hv].
  - reflexivity.
  - unfold read_csv_line. destruct blank as [|c blank]; [done|].
    rewrite (csv_fields_blank _ Hblank). by destruct (Ascii.eqb c dquote).
  - assert (csv_fields (lead +:+ first +:+ gap +:+ second +:+ trail)
            = [first; second]) as Hfields.
    { rewrite csv_fields_lead by done.
      destruct (space_head gap Hgap Hgaps) as (g & gap' & -> & Hg).
      rewrite csv_fields_field; [|done|right; by exists g, (gap' +:+ second +:+ trail)].
      rewrite csv_fields_lead by done.
      rewrite csv_fields_field; [|done|].
      - by rewrite csv_fields_blank.
      - destruct trail as [|c trail]; [by left | right].
        simpl in Htrail. apply andb_prop in Htrail as [??]. eauto. }
    unfold read_csv_line.
    destruct (lead +:+ first +:+ gap +:+ second +:+ trail) as [|c text] eqn:Hline.
    { done. }
    assert (Ascii.eqb c dquote = false) as ->.
    { destruct lead as [|l lead].
      - destruct (is_field_head _ Hfirst) as (f & first' & -> & Hf).
        apply is_field_inv in Hfirst as (_ & Hq & _).
        by injection Hline as <- _.
      - simpl in Hlead. apply andb_prop in Hlead as [Hl _].
        injection Hline as <- _.
        destruct (Ascii.eqb_spec l dquote) as [->|]; [done|done]. }
    rewrite Hfields.
    rewrite !is_field_quote_free by done. simpl.
    by rewrite Hx; simpl; rewrite Hv.
Qed.

(** On a file of the format the sample reader does what pandas documents. *)
Lemma read_csv_plain_format (lines : list string)
    (outcomes : list (option (float64 * float64))) :
  Forall2 table_line lines outcomes →
  read_csv_plain lines = Ok (omap id outcomes).
Proof.
  unfold read_csv_plain.
  induction 1 as [|line outcome lines outcomes Hline _ IH]; [done|].
  cbn [read_csv_table]. rewrite (read_csv_line_table_line _ _ Hline). simpl.
  destruct (read_csv_table lines) as [rows|]; [|done].
  injection IH as ->. by destruct outcome.
Qed.

End ReadCsvLaws.

(** ** Body parsing: what record building makes of the table *)

Section BodyParsingLaws.

Context {float64 : Type}.
Context `{!Float64Order float64} `{!ReadCsv float64} `{!PyFloat float64}.
Context `{!CsvNumber float64}.

Local Abbreviation Row := (Row float64).
Local Abbreviation NRDataReader := (NRDataReader float64).

(** The documented behaviour of [read_csv], called as on line 84, on a file
    each of whose lines begins with the comment character, is blank, or
    holds two numeric fields. *)
Hypothesis read_csv_format :
  ∀ (lines : list string) (outcomes : list (option (float64 * float64))),
    Forall2 table_line lines outcomes → read_csv lines = Ok (omap id outcomes).

Lemma level_frame_no_timestep (self : NRDataReader) (i : nat)
    (filepath : list string) (block_size : Z)
    (body : list (float64 * float64)) :
  0 < block_size - 2 →
  read_csv filepath = Ok body →
  Z.of_nat (length body) / (block_size - 2) = 0 →
  level_frame self i filepath block_size = Ok None.
Proof.
  intros Hrows Hread Hnone. unfold level_frame.
  rewrite (proj2 (Z.leb_gt _ _) Hrows), Hread. simpl.
  by rewrite Hnone.
Qed.


End BodyParsingLaws.

(** ** Discovery *)

Lemma split_str_from_head (sep : string) (skip : nat) (s : string) :
  ∃ piece pieces, split_str_from sep skip s = piece :: pieces.
Proof.
  revert skip. induction s as [|c s IH]; intros skip; [by eexists _, _|].
  cbn [split_str_from]. destruct skip as [|skip]; [|apply IH].
  destruct (String.prefix sep (String c s)); [by eexists _, _|].
  destruct (IH 0%nat) as (piece & pieces & ->). by eexists _, _.
Qed.

Lemma variable_stem_returns (fpath : string) :
  ∃ stem, variable_stem fpath = Ok stem.
Proof.
  unfold variable_stem, split_str.
  destruct (split_str_from_head ".x" 0 (basename fpath)) as (piece & pieces & ->).
  by exists piece.
Qed.

Lemma free_of_slash_join (directory name : string) :
  PyStr.free_of "/" (directory +:+ String "/" name) = false.
Proof.
  induction directory as [|c directory IH]; [done|].
  change (String c directory +:+ String "/" name)
    with (String c (directory +:+ String "/" name)).
  cbn [PyStr.free_of]. rewrite IH. apply andb_false_r.
Qed.

Lemma basename_join (directory name : string) :
  PyStr.free_of "/" name = true →
  basename (directory +:+ String "/" name) = name.
Proof.
  intros Hname. induction directory as [|c directory IH].
  - change (EmptyString +:+ String "/" name) with (String "/" name).
    cbn [basename]. by rewrite Hname.
  - change (String c directory +:+ String "/" name)
      with (String c (directory +:+ String "/" name)).
    cbn [basename]. by rewrite free_of_slash_join.
Qed.

Lemma prefix_dot_x (rest : string) :
  String.prefix ".x" (String "." (String "x" rest)) = true.
Proof. apply prefix_spec. by exists rest. Qed.

Lemma prefix_dot_x_stem (c : ascii) (stem suffix : string) :
  PyStr.contains ".x" (String c (stem +:+ ".")) = false →
  String.prefix ".x" (String c (stem +:+ ".x" +:+ suffix)) = false.
Proof.
  intros Hfree. apply not_true_is_false. intros [after Hafter]%prefix_spec.
  change (".x" +:+ after) with (String "." (String "x" after)) in Hafter.
  injection Hafter as -> Hrest.
  destruct stem as [|c' stem].
  - change (EmptyString +:+ ".x" +:+ suffix)
      with (String "." (String "x" suffix)) in Hrest. discriminate Hrest.
  - change (String c' stem +:+ ".x" +:+ suffix)
      with (String c' (stem +:+ ".x" +:+ suffix)) in Hrest.
    injection Hrest as -> _.
    change (String "x" stem +:+ ".") with (String "x" (stem +:+ ".")) in Hfree.
    cbn [PyStr.contains] in Hfree. by rewrite prefix_dot_x in Hfree.
Qed.

Lemma split_str_from_stem (stem suffix : string) :
  PyStr.contains ".x" (stem +:+ ".") = false →
  ∃ pieces, split_str_from ".x" 0 (stem +:+ ".x" +:+ suffix) = stem :: pieces.
Proof.
  induction stem as [|c stem IH]; intros Hfree.
  - change (EmptyString +:+ ".x" +:+ suffix) with (String "." (String "x" suffix)).
    cbn [split_str_from]. rewrite prefix_dot_x. by eexists.
  - change (String c stem +:+ ".x" +:+ suffix)
      with (String c (stem +:+ ".x" +:+ suffix)).
    cbn [split_str_from]. rewrite prefix_dot_x_stem by exact Hfree.
    change (String c stem +:+ ".") with (String c (stem +:+ ".")) in Hfree.
    cbn [PyStr.contains] in Hfree. apply orb_false_elim in Hfree as [_ Hfree].
    destruct (IH Hfree) as [pieces ->]. by eexists.
Qed.

(** X15. A file [stem.x...] in any directory belongs to variable [stem]:
    the variable name is the part of the file name before the first [.x],
    whatever the directory part of the path is. *)
Theorem variable_stem_spec (directory stem suffix : string) :
  PyStr.free_of "/" stem = true →
  PyStr.free_of "/" suffix = true →
  PyStr.contains ".x" (stem +:+ ".") = false →
  variable_stem (directory +:+ String "/" (stem +:+ ".x" +:+ suffix)) = Ok stem.
Proof.
  intros Hstem Hsuffix Hfirst. unfold variable_stem, split_str.
  rewrite basename_join.
  - by destruct (split_str_from_stem stem suffix Hfirst) as [pieces ->].
  - apply free_of_app; [done|]. by apply (free_of_app "/" ".x").
Qed.

Lemma group_files_spec (grouped : gmap string (list string))
    (all_x_files : list string) :
  ∃ after,
    group_files grouped all_x_files = (Ok (), after) ∧
    ∀ stem,
      default [] (after !! stem) =
        default [] (grouped !! stem) ++
        filter (λ fpath, variable_stem fpath = Ok stem) all_x_files ∧
      (is_Some (after !! stem) ↔
       is_Some (grouped !! stem) ∨
       ∃ fpath, fpath ∈ all_x_files ∧ variable_stem fpath = Ok stem).
Proof.
  revert grouped. induction all_x_files as [|fpath rest IH]; intros grouped.
  - exists grouped. split; [done|]. intros stem. rewrite app_nil_r.
    split; [done|]. split; [by left|].
    intros [?|(f & ?%elem_of_nil & _)]; done.
  - cbn [group_files].
    destruct (variable_stem_returns fpath) as [first Hfirst]. rewrite Hfirst.
    destruct (IH (<[first := default [] (grouped !! first) ++ [fpath]]> grouped))
      as (after & -> & Hafter).
    exists after. split; [done|]. intros stem.
    destruct (Hafter stem) as [Hpaths Hsome]. rewrite Hpaths, Hsome.
    rewrite filter_cons. destruct (decide (first = stem)) as [->|Hne].
    + rewrite lookup_insert_eq, decide_True by done. cbn [default id].
      rewrite <-app_assoc. split; [done|]. split.
      * intros _. right. exists fpath. split; [by left | done].
      * intros _. left. by eexists.
    + rewrite lookup_insert_ne by done.
      rewrite decide_False by congruence. split; [done|]. split.
      * intros [?|(f & Hf & Hstem)]; [by left|].
        right. exists f. split; [by right | done].
      * intros [?|(f & [->|Hf]%elem_of_cons & Hstem)]; [by left | congruence|].
        right. by exists f.
Qed.

(** X16. Discovery never raises, and it groups and accumulates: afterwards
    the paths listed for a variable are, in ascending order, the paths
    listed for it before together with the given paths whose file name has
    that stem. A second discovery on the same reader therefore lists every
    file twice. *)
Theorem discover_groups_paths (self : Registry) (all_x_files : list string) :
  ∃ after,
    _discover_and_group_files self all_x_files = (Ok (), after) ∧
    ∀ stem,
      Sorted String.le (default [] (variable_paths after !! stem)) ∧
      default [] (variable_paths after !! stem) ≡ₚ
        default [] (variable_paths self !! stem) ++
        filter (λ fpath, variable_stem fpath = Ok stem) all_x_files.
Proof.
  unfold _discover_and_group_files.
  destruct (group_files_spec (variable_paths self) all_x_files)
    as (grouped & -> & Hgrouped).
  eexists. split; [done|]. intros stem. cbn [variable_paths].
  destruct (Hgrouped stem) as [Hpaths _]. rewrite <-Hpaths, lookup_fmap.
  destruct (grouped !! stem) as [paths|]; cbn [fmap option_fmap option_map default].
  - split; [apply (Sorted_merge_sort String.le) | apply merge_sort_Permutation].
  - split; [constructor | done].
Qed.

(** X17. The variable names kept by discovery are exactly the names that
    had paths before or are the stem of one of the given paths, each
    once, in ascending order. *)
Theorem discover_variables (self : Registry) (all_x_files : list string) :
  let after := (_discover_and_group_files self all_x_files).2 in
  Sorted String.le (variables after) ∧
  NoDup (variables after) ∧
  ∀ var,
    var ∈ variables after ↔
    is_Some (variable_paths self !! var) ∨
    ∃ fpath, fpath ∈ all_x_files ∧ variable_stem fpath = Ok var.
Proof.
  cbn zeta. unfold _discover_and_group_files.
  destruct (group_files_spec (variable_paths self) all_x_files)
    as (grouped & -> & Hgrouped).
  cbn [snd variables]. split; [apply (Sorted_merge_sort String.le)|]. split.
  - rewrite merge_sort_Permutation. apply NoDup_elements.
  - intros var. rewrite merge_sort_Permutation, elem_of_elements, elem_of_dom.
    rewrite lookup_fmap, fmap_is_Some. by destruct (Hgrouped var) as [_ ->].
Qed.

(** X18. After discovery every listed variable has at least one path,
    provided no empty list was registered before (as in a new reader, whose
    registry is empty): the first path of the first variable, which [load]
    takes as the reference file, exists. *)
Theorem discover_paths_nonempty (self : Registry) (all_x_files : list string)
    (var : string) :
  (∀ name paths, variable_paths self !! name = Some paths → paths ≠ []) →
  var ∈ variables (_discover_and_group_files self all_x_files).2 →
  ∃ first rest,
    variable_paths (_discover_and_group_files self all_x_files).2 !! var =
    Some (first :: rest).
Proof.
  intros Hold. unfold _discover_and_group_files.
  destruct (group_files_spec (variable_paths self) all_x_files)
    as (grouped & -> & Hgrouped).
  cbn [snd variables variable_paths].
  rewrite merge_sort_Permutation, elem_of_elements, elem_of_dom.
  rewrite lookup_fmap, fmap_is_Some. intros [paths Hpaths].
  destruct (Hgrouped var) as [Hlist Hsome]. rewrite Hpaths in Hlist, Hsome.
  cbn [default id] in Hlist. rewrite Hpaths. cbn [fmap option_fmap option_map].
  assert (paths ≠ []) as Hne.
  { destruct (proj1 Hsome (mk_is_Some _ _ eq_refl))
      as [[before Hbefore]|(fpath & Hin & Hstem)].
    - rewrite Hbefore in Hlist. cbn [default id] in Hlist. rewrite Hlist.
      intros [Hnil _]%app_eq_nil. by apply (Hold var before).
    - rewrite Hlist. intros [_ Hnil]%app_eq_nil.
      assert (fpath ∈ filter (λ fpath, variable_stem fpath = Ok var) all_x_files)
        as Hfiltered by (by apply list_elem_of_filter).
      rewrite Hnil in Hfiltered. by apply elem_of_nil in Hfiltered. }
  destruct (merge_sort String.le paths) as [|first rest] eqn:Hsorted.
  - exfalso. apply Hne, Permutation_nil_r.
    by rewrite <-(merge_sort_Permutation String.le paths), Hsorted.
  - by eexists _, _.
Qed.

(** ** The laws at sample inputs *)

Import Decimal.

Lemma Qle_bool_total (a b : Q) : Qle_bool a b = true ∨ Qle_bool b a = true.
Proof. unfold Qle_bool. rewrite !Z.leb_le. lia. Qed.

Lemma Qle_bool_trans (a b c : Q) :
  Qle_bool a b = true → Qle_bool b c = true → Qle_bool a c = true.
Proof. rewrite !Qle_bool_iff. apply Qle_trans. Qed.

(** *** The scenarios of the specification *)

Example two_blocks_block_size : _get_lines_per_block two_blocks = 5.
Proof. reflexivity. Qed.

(** One header line only: block size 0, no times, no records. *)
Example one_header_block_size :
  _get_lines_per_block [header "0.0"; eol "0.0 1.0"; eol ""] = 0 ∧
  _parse_times_from_file (float64 := Q) [header "0.0"; eol "0.0 1.0"; eol ""] 0 = Ok [] ∧
  level_frame (reader []) 0 [header "0.0"; eol "0.0 1.0"; eol ""] 0 = Ok None.
Proof. repeat split; reflexivity. Qed.

Example two_blocks_times :
  _parse_times_from_file two_blocks 5 = Ok [Qmake 0 10; Qmake 10 10].
Proof. reflexivity. Qed.

Example truncated_file_times :
  _parse_times_from_file truncated_file 5 =
  Ok [Qmake 0 10; Qmake 10 10; Qmake 20 10].
Proof. reflexivity. Qed.

Example quoted_time :
  parse_time ("Time = " +:+ String dquote ("0.5" +:+ String dquote "")) =
  Ok (Qmake 5 10).
Proof. reflexivity. Qed.

Example header_without_equals : parse_time (eol "Time 0.5") = Raise IndexError.
Proof. reflexivity. Qed.

Example header_not_numeric : parse_time (header "soon") = Raise ValueError.
Proof. reflexivity. Qed.

Example two_blocks_records :
  level_frame (reader [Qmake 0 10; Qmake 10 10]) 0 two_blocks 5 =
  Ok (Some [ mkRow (Qmake 0 10) (Qmake 10 10) (Qmake 0 10) 0;
             mkRow (Qmake 10 10) (Qmake 20 10) (Qmake 0 10) 0;
             mkRow (Qmake 20 10) (Qmake 30 10) (Qmake 0 10) 0;
             mkRow (Qmake 0 10) (Qmake 10 10) (Qmake 10 10) 0;
             mkRow (Qmake 10 10) (Qmake 20 10) (Qmake 10 10) 0;
             mkRow (Qmake 20 10) (Qmake 30 10) (Qmake 10 10) 0 ]).
Proof. reflexivity. Qed.

Example finer_level_overrides :
  loc (merge_levels
         [ [mkRow (Qmake 10 10) (Qmake 50 10) (Qmake 0 10) 0];
           [mkRow (Qmake 10 10) (Qmake 90 10) (Qmake 0 10) 1] ])
      (Qmake 0 10) (Qmake 10 10) = Some (Qmake 90 10).
Proof. reflexivity. Qed.

Example load_coarse :
  load (reader []) [("rho", [coarse])] =
  (Ok (),
   {| times := [Qmake 0 10; Qmake 10 10];
      data := {[ "rho" := [ (Qmake 0 10, Qmake 10 10, Qmake 50 10);
                            (Qmake 10 10, Qmake 10 10, Qmake 60 10) ] ]} |}).
Proof. reflexivity. Qed.

(** *** Instances of the laws, and inputs on which a claim fails *)

Lemma parse_times_length_witness :
  1 ≤ 5 ∧
  ∃ times : list Q,
    _parse_times_from_file truncated_file 5 = Ok times ∧
    length times =
      length (filter (λ line, is_Some (header_time (float64 := Q) line))
                     (lines_at_multiples 5 truncated_file)) ∧
    (Forall (λ line, is_Some (header_time (float64 := Q) line))
            (lines_at_multiples 5 truncated_file) →
     Z.of_nat (length truncated_file) `mod` 5 ≠ 0 →
     Z.of_nat (length times) = Z.of_nat (length truncated_file) / 5 + 1).
Proof.
  split; [lia | apply (parse_times_length truncated_file 5); lia].
Defined.

(** With levels 0, 1 and 2 at one key, the pair (0, 1) meets the premise of
    the override law as stated, and the stored value is that of level 2. *)
Lemma override_pairwise_fails :
  ¬ (∀ (all_levels_dfs : list (list (Row Q))) (ra rb : Row Q),
       ra ∈ concat all_levels_dfs →
       rb ∈ concat all_levels_dfs →
       same_key ra rb = true →
       (level ra < level rb)%nat →
       loc (merge_levels all_levels_dfs) (time rb) (x_coordinate rb) =
       Some (value rb)).
Proof.
  intros Hlaw.
  specialize (Hlaw three_levels
    (mkRow (Qmake 10 10) (Qmake 50 10) (Qmake 0 10) 0)
    (mkRow (Qmake 10 10) (Qmake 90 10) (Qmake 0 10) 1)).
  assert (Some (Qmake 70 10) = Some (Qmake 90 10)) as Heq.
  { apply Hlaw.
    - apply list_elem_of_here.
    - apply list_elem_of_further, list_elem_of_here.
    - reflexivity.
    - simpl. lia. }
  discriminate Heq.
Qed.

Lemma merge_levels_override_witness :
  loc (merge_levels three_levels) (Qmake 0 10) (Qmake 10 10) = Some (Qmake 70 10).
Proof.
  apply (merge_levels_override Qle_bool_total Qle_bool_trans three_levels
           [mkRow (Qmake 10 10) (Qmake 50 10) (Qmake 0 10) 0;
            mkRow (Qmake 10 10) (Qmake 90 10) (Qmake 0 10) 1]
           []
           (mkRow (Qmake 10 10) (Qmake 90 10) (Qmake 0 10) 1)
           (mkRow (Qmake 10 10) (Qmake 70 10) (Qmake 0 10) 2)).
  - reflexivity.
  - apply list_elem_of_further, list_elem_of_here.
  - reflexivity.
  - simpl. lia.
  - intros s Hs _.
    apply elem_of_cons in Hs as [->|Hs]; [simpl; lia|].
    apply list_elem_of_singleton in Hs as ->. simpl. lia.
  - intros s Hs. by apply elem_of_nil in Hs.
Defined.

(** C3. The specification asks for truncation to the shorter of the two
    sequences, without failure, when a level file has more complete blocks
    than there are reference times. Here variable [rho] has a level-0 file
    of two blocks, which gives the two reference times, and a level-1 file
    of three complete blocks: [_process_variable] raises [ValueError], and
    so does [load]. *)
Theorem sequence_mismatch_raises :
  _get_lines_per_block coarse = 3 ∧
  _get_lines_per_block fine = 3 ∧
  _parse_times_from_file coarse 3 = Ok [Qmake 0 10; Qmake 10 10] ∧
  read_csv fine =
    Ok [(Qmake 10 10, Qmake 90 10); (Qmake 10 10, Qmake 95 10);
        (Qmake 10 10, Qmake 80 10)] ∧
  (_process_variable (reader [Qmake 0 10; Qmake 10 10]) "rho"
     [coarse; fine] [3; 3]).1 = Raise ValueError ∧
  (load (reader []) [("rho", [coarse; fine])]).1 = Raise ValueError.
Proof. repeat split; reflexivity. Qed.

(** The truncation law without a condition on the reference times fails on
    the level-1 file above. *)
Lemma truncation_needs_times :
  ¬ (∀ (self : NRDataReader Q) (i : nat) (filepath : list string)
       (block_size : Z) (body : list (Q * Q)) (n r : Z),
       0 < block_size - 2 →
       read_csv filepath = Ok body →
       Z.of_nat (length body) = (block_size - 2) * n + r →
       0 ≤ r < block_size - 2 →
       ∃ frame : option (list (Row Q)),
         level_frame self i filepath block_size = Ok frame ∧
         Z.of_nat (length (emitted frame)) = n * (block_size - 2)).
Proof.
  intros Hlaw.
  destruct (Hlaw (reader [Qmake 0 10; Qmake 10 10]) 1%nat fine 3
              [(Qmake 10 10, Qmake 90 10); (Qmake 10 10, Qmake 95 10);
               (Qmake 10 10, Qmake 80 10)] 3 0)
    as (frame & Hframe & _); [lia | reflexivity | reflexivity | lia |].
  discriminate Hframe.
Qed.

Lemma level_frame_truncation_witness :
  (2 - 2 ≤ 0 ∧
   level_frame (reader [Qmake 0 10; Qmake 10 10]) 0 truncated_file 2 = Ok None) ∧
  ∃ frame : option (list (Row Q)),
    level_frame (reader [Qmake 0 10; Qmake 10 10]) 0 truncated_file 5 = Ok frame ∧
    Z.of_nat (length (emitted frame)) = 2 * (5 - 2) ∧
    ∀ (k : nat) (x v : Q),
      Z.of_nat k < 2 * (5 - 2) →
      [(Qmake 0 10, Qmake 10 10); (Qmake 10 10, Qmake 20 10);
       (Qmake 20 10, Qmake 30 10); (Qmake 0 10, Qmake 10 10);
       (Qmake 10 10, Qmake 20 10); (Qmake 20 10, Qmake 30 10);
       (Qmake 0 10, Qmake 10 10)] !! k = Some (x, v) →
      ∃ t : Q,
        [Qmake 0 10; Qmake 10 10] !! Z.to_nat (Z.of_nat k / (5 - 2)) = Some t ∧
        emitted frame !! k = Some (mkRow x v t 0).
Proof.
  split.
  - split; [lia|].
    apply (proj1 (level_frame_truncation (reader [Qmake 0 10; Qmake 10 10])
                    0 truncated_file 2)). lia.
  - apply (proj2 (level_frame_truncation (reader [Qmake 0 10; Qmake 10 10])
                    0 truncated_file 5)
             _ 2 1); [lia | reflexivity | reflexivity | lia | simpl; lia].
Defined.

Lemma process_variable_idempotent_witness :
  let first :=
    _process_variable (reader [Qmake 0 10; Qmake 10 10]) "rho"
      [coarse; coarse] [3; 3] in
  let second := _process_variable first.2 "rho" [coarse; coarse] [3; 3] in
  second = first ∧ first.2 = reader [Qmake 0 10; Qmake 10 10] ∧
  ∀ (merged : Dataset Q) (lvl : nat),
    first.1 = Ok merged → merge_levels [as_level lvl merged] = merged.
Proof.
  apply (process_variable_idempotent Qle_bool_total Qle_bool_trans).
Defined.

Example coarse_merged :
  (_process_variable (reader [Qmake 0 10; Qmake 10 10]) "rho"
     [coarse; coarse] [3; 3]).1 =
  Ok [ (Qmake 0 10, Qmake 10 10, Qmake 50 10);
       (Qmake 10 10, Qmake 10 10, Qmake 60 10) ].
Proof. reflexivity. Qed.

Lemma get_variable_unknown_witness :
  let self := (load (reader []) [("rho", [coarse])]).2 in
  data self !! "chi" = None ∧ get_variable self "chi" = ([], self).
Proof.
  cbn zeta. split; [reflexivity|].
  apply get_variable_unknown. reflexivity.
Defined.


Example read_csv_plain_sample :
  read_csv_plain [header "0.0"; eol "0.0 1.0"; eol ""; eol "  1.0   2.0"] =
  Ok [(Qmake 0 10, Qmake 10 10); (Qmake 10 10, Qmake 20 10)].
Proof. reflexivity. Qed.

(** The lines of [truncated_file], as the format has them. *)
Lemma truncated_file_format :
  Forall2 table_line truncated_file
    [ None; Some (Qmake 0 10, Qmake 10 10); Some (Qmake 10 10, Qmake 20 10);
      Some (Qmake 20 10, Qmake 30 10); None;
      None; Some (Qmake 0 10, Qmake 10 10); Some (Qmake 10 10, Qmake 20 10);
      Some (Qmake 20 10, Qmake 30 10); None;
      None; Some (Qmake 0 10, Qmake 10 10) ].
Proof.
  repeat first
    [ apply Forall2_nil_2
    | apply List.Forall2_cons
    | apply comment_line
    | apply blank_line; reflexivity
    | apply (pair_line "" "0.0" " " "1.0" (eol ""));
        repeat split; (reflexivity || discriminate)
    | apply (pair_line "" "1.0" " " "2.0" (eol ""));
        repeat split; (reflexivity || discriminate)
    | apply (pair_line "" "2.0" " " "3.0" (eol ""));
        repeat split; (reflexivity || discriminate) ].
Qed.


(** *** Instances of the further laws *)

Example split_str_pieces :
  split_str ".x" "rho.xl1.xyz" = ["rho"; "l1"; "yz"] ∧
  split_str ".x" "rho" = ["rho"] ∧
  split_str ".x" "" = [""] ∧
  split_str ".x" ".x" = [""; ""].
Proof. repeat split; reflexivity. Qed.

Example basename_paths :
  basename "run/out/rho.xl0.asc" = "rho.xl0.asc" ∧
  basename "rho.xl0.asc" = "rho.xl0.asc" ∧
  basename "run/out/" = "".
Proof. repeat split; reflexivity. Qed.

Example discover_two_variables :
  _discover_and_group_files (mkRegistry [] ∅)
    ["run/rho.xl1.asc"; "run/alp.xl0.asc"; "run/rho.xl0.asc"] =
  (Ok (),
   mkRegistry ["alp"; "rho"]
     {[ "alp" := ["run/alp.xl0.asc"];
        "rho" := ["run/rho.xl0.asc"; "run/rho.xl1.asc"] ]}).
Proof. reflexivity. Qed.

Lemma get_lines_per_block_first_block_witness :
  _get_lines_per_block two_blocks =
  Z.of_nat (length [eol "0.0 1.0"; eol "1.0 2.0"; eol "2.0 3.0"; eol ""]) + 1.
Proof.
  apply (get_lines_per_block_first_block []
           (header "0.0") [eol "0.0 1.0"; eol "1.0 2.0"; eol "2.0 3.0"; eol ""]
           (header "1.0") [eol "0.0 1.0"; eol "1.0 2.0"; eol "2.0 3.0"; eol ""]).
  - constructor.
  - reflexivity.
  - repeat constructor.
  - reflexivity.
Defined.

Lemma parse_times_blocks_witness :
  _parse_times_from_file truncated_file 5 =
  Ok (omap (header_time (float64 := Q))
        ([header "0.0"; header "1.0"] ++ [header "2.0"])).
Proof.
  apply (parse_times_blocks
           [ (header "0.0", [eol "0.0 1.0"; eol "1.0 2.0"; eol "2.0 3.0"; eol ""]);
             (header "1.0", [eol "0.0 1.0"; eol "1.0 2.0"; eol "2.0 3.0"; eol ""]) ]
           [header "2.0"; eol "0.0 1.0"] 5).
  - lia.
  - repeat constructor.
  - simpl. lia.
Defined.

Lemma parse_time_number_witness :
  parse_time
    ("Time " +:+
     String "=" (" " +:+ (String dquote "" +:+ "0.5" +:+ String dquote "") +:+
                 String "010" "")) =
  Ok (Qmake 5 10).
Proof.
  etrans.
  - apply (parse_time_number "Time " " " (String dquote "") "0.5"
             (String dquote "") (String "010" "")); reflexivity.
  - reflexivity.
Defined.

Lemma merge_levels_ascending_witness :
  entry_lt (Qmake 0 10, Qmake 10 10, Qmake 90 10)
           (Qmake 10 10, Qmake 10 10, Qmake 60 10) = true.
Proof.
  apply (merge_levels_ascending Qle_bool_total Qle_bool_trans
           [ [ mkRow (Qmake 10 10) (Qmake 60 10) (Qmake 10 10) 0;
               mkRow (Qmake 10 10) (Qmake 50 10) (Qmake 0 10) 0 ];
             [ mkRow (Qmake 10 10) (Qmake 90 10) (Qmake 0 10) 1 ] ]
           0%nat 1%nat).
  - lia.
  - reflexivity.
  - reflexivity.
Defined.

Lemma merge_levels_keeps_keys_witness :
  ∃ s : Row Q,
    s ∈ concat three_levels ∧
    same_key s (mkRow (Qmake 10 10) (Qmake 50 10) (Qmake 0 10) 0) = true ∧
    (0 ≤ level s)%nat ∧
    loc (merge_levels three_levels) (Qmake 0 10) (Qmake 10 10) = Some (value s).
Proof.
  apply (merge_levels_keeps_keys Qle_bool_total Qle_bool_trans three_levels
           (mkRow (Qmake 10 10) (Qmake 50 10) (Qmake 0 10) 0)).
  apply list_elem_of_here.
Defined.

Lemma merge_levels_distinct_witness :
  merge_levels
    [ [ mkRow (Qmake 10 10) (Qmake 60 10) (Qmake 10 10) 0 ];
      [ mkRow (Qmake 10 10) (Qmake 90 10) (Qmake 0 10) 1 ] ] ≡ₚ
  [ (Qmake 10 10, Qmake 10 10, Qmake 60 10);
    (Qmake 0 10, Qmake 10 10, Qmake 90 10) ].
Proof.
  apply (merge_levels_distinct
           [ [ mkRow (Qmake 10 10) (Qmake 60 10) (Qmake 10 10) 0 ];
             [ mkRow (Qmake 10 10) (Qmake 90 10) (Qmake 0 10) 1 ] ]).
  reflexivity.
Defined.

Lemma process_variable_provenance_witness :
  Qmake 0 10 ∈ times (reader [Qmake 0 10; Qmake 10 10]) ∧
  ∃ (filepath : list string) (body : list (Q * Q)),
    filepath ∈ [coarse; coarse] ∧
    read_csv filepath = Ok body ∧ (Qmake 10 10, Qmake 50 10) ∈ body.
Proof.
  apply (process_variable_provenance (reader [Qmake 0 10; Qmake 10 10]) "rho"
           [coarse; coarse] [3; 3]
           [ (Qmake 0 10, Qmake 10 10, Qmake 50 10);
             (Qmake 10 10, Qmake 10 10, Qmake 60 10) ]).
  - reflexivity.
  - apply list_elem_of_here.
Defined.

Lemma process_variable_no_blocks_witness :
  _process_variable (reader [Qmake 0 10]) "rho"
    [ [header "0.0"; eol "0.0 1.0"; eol ""]; [header "0.0"; header "1.0"] ]
    (_get_lines_per_block <$>
       [ [header "0.0"; eol "0.0 1.0"; eol ""]; [header "0.0"; header "1.0"] ]) =
  (Ok [], reader [Qmake 0 10]).
Proof.
  apply (process_variable_no_blocks (reader [Qmake 0 10]) "rho").
  repeat constructor; vm_compute; discriminate.
Defined.

Lemma load_stores_witness :
  ∃ df : Dataset Q,
    data (load (reader []) [("rho", [coarse])]).2 !! "rho" = Some df ∧
    (get_variable (load (reader []) [("rho", [coarse])]).2 "rho").1 = df ∧
    (_process_variable (load (reader []) [("rho", [coarse])]).2 "rho" [coarse]
       (_get_lines_per_block <$> [coarse])).1 = Ok df.
Proof.
  apply (load_stores (reader []) _ [("rho", [coarse])]).
  - reflexivity.
  - repeat constructor; by intros ?%elem_of_nil.
  - apply list_elem_of_here.
Defined.

Lemma load_keeps_others_witness :
  data (load (reader []) [("rho", [coarse])]).2 !! "chi" =
  data (reader []) !! "chi".
Proof.
  apply (load_keeps_others (reader []) [("rho", [coarse])] "chi").
  intros Hin. apply list_elem_of_singleton in Hin. discriminate Hin.
Defined.

Lemma load_variables_failure_witness :
  load_variables (reader [Qmake 0 10; Qmake 10 10])
    ([("chi", [coarse])] ++ ("rho", [coarse; fine]) :: [("psi", [coarse])]) =
  (Raise ValueError,
   (load_variables (reader [Qmake 0 10; Qmake 10 10]) [("chi", [coarse])]).2).
Proof.
  apply (load_variables_failure (reader [Qmake 0 10; Qmake 10 10])).
  - reflexivity.
  - reflexivity.
Defined.

Lemma variable_stem_spec_witness :
  variable_stem ("run/out" +:+ String "/" ("rho" +:+ ".x" +:+ "l1.asc")) = Ok "rho".
Proof.
  apply (variable_stem_spec "run/out" "rho" "l1.asc"); reflexivity.
Defined.

Lemma discover_paths_nonempty_witness :
  ∃ first rest,
    variable_paths
      (_discover_and_group_files (mkRegistry [] ∅)
         ["run/rho.xl1.asc"; "run/alp.xl0.asc"; "run/rho.xl0.asc"]).2 !! "rho" =
    Some (first :: rest).
Proof.
  apply (discover_paths_nonempty (mkRegistry [] ∅)
           ["run/rho.xl1.asc"; "run/alp.xl0.asc"; "run/rho.xl0.asc"] "rho").
  - intros name paths Hpaths. cbn [variable_paths] in Hpaths.
    by rewrite lookup_empty in Hpaths.
  - apply (list_elem_of_lookup_2 _ 1%nat). reflexivity.
Defined.
